(** * MLNode load balancer: backend pool, monitor, settings and proxy routes

    A shallow embedding of the Python package [load_balancer]
    ([config.py], [backends.py], [monitor.py], [app.py]) together with the
    properties its design document states about it.

    Modelling conventions.
    - A Python [str] is a list of Unicode code points ([N]); [lit] turns a
      Rocq string literal into one.
    - A Python object that the code treats dynamically (a decoded JSON body,
      [Backend.state]) is a [value].
    - Every [Backend] object lives in the list [backends] of its pool; a
      reference to a backend is its position in that list, and a mutation of
      the object is an update at that position.
    - Coroutines run on one event loop. Each coroutine body below is the
      state transformer between its first and last statement; the locks
      ([_lock], [_pick_lock]) guard exactly these bodies, so they do not
      appear as data. *)

From Stdlib Require Import Floats.PrimFloat.
From Stdlib Require Import ZArith List Strings.String Strings.Ascii Bool Lia.
From stdpp Require Import base decidable option list sorting strings.
Import ListNotations.
Open Scope Z_scope.

(** ** Python built-ins used by the package *)

Module Py.

Definition str := list N.

Definition lit (s : string) : str := N_of_ascii <$> list_ascii_of_string s.

Definition float := PrimFloat.float.

(** [str.isspace] for one code point (the table of [_PyUnicode_IsWhitespace]). *)
Definition isspace (c : N) : bool :=
  ((9 <=? c) && (c <=? 13) || (28 <=? c) && (c <=? 32) || (c =? 133)
   || (c =? 160) || (c =? 5760) || (8192 <=? c) && (c <=? 8202)
   || (c =? 8232) || (c =? 8233) || (c =? 8239) || (c =? 8287)
   || (c =? 12288))%N.

Fixpoint lstrip_by (drop_it : N -> bool) (s : str) : str :=
  match s with
  | c :: s' => if drop_it c then lstrip_by drop_it s' else s
  | [] => []
  end.

Definition rstrip_by (drop_it : N -> bool) (s : str) : str :=
  reverse (lstrip_by drop_it (reverse s)).

(** [s.strip()] *)
Definition strip (s : str) : str := rstrip_by isspace (lstrip_by isspace s).

(** [s.rstrip(chars)] *)
Definition rstrip (chars : str) (s : str) : str :=
  rstrip_by (fun c => bool_decide (c ∈ chars)) s.

(** [s.split(sep)] for a separator of one code point. *)
Fixpoint split (sep : N) (s : str) : list str :=
  match s with
  | [] => [[]]
  | c :: s' =>
      if (c =? sep)%N then [] :: split sep s'
      else match split sep s' with
           | w :: ws => (c :: w) :: ws
           | [] => [[c]]
           end
  end.

(** [s.startswith(prefix)] *)
Fixpoint startswith (s prefix : str) {struct prefix} : bool :=
  match prefix, s with
  | [], _ => true
  | p :: prefix', c :: s' => (c =? p)%N && startswith s' prefix'
  | _ :: _, [] => false
  end.

(** [s.lower()], one code point at a time. It is exact on Latin-1 text and
    on the four code points above it whose lower case is Latin-1 (capital Y
    with diaeresis, capital sharp s, the Kelvin and the Angstrom sign); any
    other code point above 255 is kept, which agrees with [str.lower] on
    what the package asks of the result: whether it equals an ASCII name and
    whether it encodes as Latin-1. *)
Definition lower_char (c : N) : N :=
  (if (65 <=? c) && (c <=? 90) then c + 32
   else if (192 <=? c) && (c <=? 222) && negb (c =? 215) then c + 32
   else if c =? 376 then 255
   else if c =? 7838 then 223
   else if c =? 8490 then 107
   else if c =? 8491 then 229
   else c)%N.

(** [bytes.lower()] on a header name: ASCII letters only. *)
Definition ascii_lower (s : str) : str :=
  (fun c => if (65 <=? c) && (c <=? 90) then c + 32 else c)%N <$> s.

(** Whether [s.encode("latin-1")] returns. *)
Definition encodes_latin1 (s : str) : bool := forallb (fun c => (c <=? 255)%N) s.

Definition lower (s : str) : str := lower_char <$> s.

(** Objects as [json.loads] builds them, plus [None]. *)
#[local] Unset Elimination Schemes.
Inductive value :=
| VNone
| VBool (b : bool)
| VInt (z : Z)
| VFloat (f : float)
| VStr (s : str)
| VList (l : list value)
| VDict (d : list (str * value)).
#[local] Set Elimination Schemes.

(** [bool(v)] *)
Definition truthy (v : value) : bool :=
  match v with
  | VNone => false
  | VBool b => b
  | VInt z => negb (z =? 0)
  | VFloat f => negb (PrimFloat.eqb f 0%float)
  | VStr s => negb (bool_decide (s = []))
  | VList l => negb (bool_decide (length l = 0%nat))
  | VDict d => negb (bool_decide (length d = 0%nat))
  end.

(** [v == s] for a [str] [s]: only an equal [str] compares equal. *)
Definition eq_str (v : value) (s : str) : bool :=
  match v with
  | VStr t => bool_decide (t = s)
  | _ => false
  end.

(** [s in vs] for a list [vs]. *)
Definition str_in (s : str) (vs : list value) : bool :=
  existsb (fun v => eq_str v s) vs.

(** [d.get(key)] on a dict held as its items. *)
Fixpoint dict_get (d : list (str * value)) (key : str) : value :=
  match d with
  | [] => VNone
  | (k, v) :: d' => if bool_decide (k = key) then v else dict_get d' key
  end.

(** [min(xs, key=...)] after its first element: the first least one wins. *)
Fixpoint min_from {A} (key : A -> Z) (best : A) (rest : list A) : A :=
  match rest with
  | [] => best
  | x :: rest' => min_from key (if key x <? key best then x else best) rest'
  end.

(** [enumerate(xs)] *)
Definition enumerate {A} (xs : list A) : list (nat * A) := imap pair xs.

(** Exceptions raised or caught by the package. [RecursionError] is a
    [RuntimeError], [UnicodeEncodeError] a [ValueError]; none of them is a
    [BaseException] only. *)
Inductive exn :=
| RuntimeError (msg : str)
| AttributeError
| HTTPException (status_code : Z) (detail : str)
| TransportError
| ValueError
| UnicodeEncodeError
| RecursionError (msg : str).

(** [isinstance(e, ValueError)] *)
Definition is_ValueError (e : exn) : bool :=
  match e with
  | ValueError | UnicodeEncodeError => true
  | _ => false
  end.

(** A call either raises or returns. *)
Definition result (A : Type) : Type := exn + A.

#[global] Instance result_ret : MRet (sum exn) := fun A a => inr a.
#[global] Instance result_bind : MBind (sum exn) := fun A B k r =>
  match r with
  | inl e => inl e
  | inr a => k a
  end.

End Py.
Import Py.

(** ** config.py *)

Definition DEFAULT_REFRESH_INTERVAL : float := 2.0%float.
Definition DEFAULT_REQUEST_TIMEOUT : float := 30.0%float.
Definition DEFAULT_STATE_TIMEOUT : float := 5.0%float.
Definition DEFAULT_HEALTH_TIMEOUT : float := 2.0%float.

Record Settings := mkSettings {
  backend_urls : list str;
  refresh_interval : float;
  request_timeout : float;
  state_timeout : float;
  health_timeout : float
}.

(** The process environment, as [os.getenv] reads it. *)
Definition environ := str -> option str.

Section Load.

(** The built-in [float(raw)]; [None] stands for its [ValueError]. *)
Variable float_of_str : str -> option float.

Definition parse_backends (raw_backends : str) : list str :=
  (fun b => rstrip (lit "/") (strip b))
    <$> List.filter (fun b => negb (bool_decide (strip b = []))) (split 44 raw_backends).

Definition _float_env (env : environ) (name : str) (default : float) : result float :=
  match env name with
  | None => inr default
  | Some raw =>
      match float_of_str raw with
      | Some f => inr f
      | None => inl (RuntimeError (lit "Invalid float value for " ++ name ++ lit ": " ++ raw))
      end
  end.

Definition load (env : environ) : result Settings :=
  let raw_backends := default [] (env (lit "MLNODE_BACKENDS")) in
  let backends := parse_backends raw_backends in
  if bool_decide (backends = []) then
    inl (RuntimeError
           (lit "MLNODE_BACKENDS environment variable must contain at least one backend URL"))
  else
    ri ← _float_env env (lit "MLNODE_REFRESH_INTERVAL") DEFAULT_REFRESH_INTERVAL;
    rt ← _float_env env (lit "MLNODE_REQUEST_TIMEOUT") DEFAULT_REQUEST_TIMEOUT;
    st ← _float_env env (lit "MLNODE_STATE_TIMEOUT") DEFAULT_STATE_TIMEOUT;
    ht ← _float_env env (lit "MLNODE_HEALTH_TIMEOUT") DEFAULT_HEALTH_TIMEOUT;
    inr (mkSettings backends ri rt st ht).

End Load.

(** ** backends.py *)

Record Backend := mkBackend {
  url : str;
  settings : Settings;
  state : value;
  healthy : bool;
  active_requests : Z
}.

(** [Backend(url=u, settings=s)]: the dataclass defaults fill the rest. *)
Definition new_Backend (u : str) (s : Settings) : Backend :=
  mkBackend u s VNone false 0.

Definition set_active_requests (n : Z) (b : Backend) : Backend :=
  mkBackend (url b) (settings b) (state b) (healthy b) n.

Definition set_state (v : value) (b : Backend) : Backend :=
  mkBackend (url b) (settings b) v (healthy b) (active_requests b).

Definition set_healthy (h : bool) (b : Backend) : Backend :=
  mkBackend (url b) (settings b) (state b) h (active_requests b).

Definition mark_request_start (b : Backend) : Backend :=
  set_active_requests (active_requests b + 1) b.

Definition mark_request_done (b : Backend) : Backend :=
  if 0 <? active_requests b then set_active_requests (active_requests b - 1) b
  else b.

Definition is_available (b : Backend) : bool :=
  healthy b && eq_str (state b) (lit "INFERENCE").


Record BackendPool := mkBackendPool {
  pool_settings : Settings;
  backends : list Backend
}.

(** [BackendPool(settings)] *)
Definition new_BackendPool (s : Settings) : BackendPool :=
  mkBackendPool s ((fun b => new_Backend b s) <$> backend_urls s).

(** The effect on the pool of calling method [f] on the backend at [i]. *)
Definition on_backend (f : Backend -> Backend) (i : nat) (p : BackendPool) : BackendPool :=
  mkBackendPool (pool_settings p) (alter f i (backends p)).

Definition candidates (p : BackendPool) : list (nat * Backend) :=
  List.filter (fun ib => is_available ib.2) (enumerate (backends p)).

(** Returns the chosen backend (its position) and the pool after the call. *)
Definition pick_backend (p : BackendPool) : result (nat * BackendPool) :=
  match candidates p with
  | [] => inl (RuntimeError (lit "No healthy inference backends available"))
  | c :: rest =>
      let backend := (min_from (fun ib => active_requests ib.2) c rest).1 in
      inr (backend, on_backend mark_request_start backend p)
  end.

Definition release_backend (backend : nat) (p : BackendPool) : BackendPool :=
  on_backend mark_request_done backend p.

Definition priority : list str :=
  [lit "INFERENCE"; lit "POW"; lit "TRAIN"; lit "STOPPED"].

(** The loop [for state in priority: if state in states: return state]. *)
Fixpoint first_in (prio : list str) (states : list value) : option str :=
  match prio with
  | [] => None
  | s :: prio' => if str_in s states then Some s else first_in prio' states
  end.

Definition aggregate_state (p : BackendPool) : str :=
  let states := state <$> List.filter (fun b => truthy (state b)) (backends p) in
  default (lit "STOPPED") (first_in priority states).

Definition any_healthy (p : BackendPool) : bool :=
  existsb is_available (backends p).


(** ** monitor.py *)

(** What [await client.get(url, timeout=...)] does: it raises, or it returns
    a response with a status code and a body; [json] is what
    [response.json()] does with that body: it returns the decoded object or
    raises ([ValueError] for a body that is not JSON, [RecursionError] for
    one nested too deep). *)
Inductive get_result :=
| GetRaises
| GetResponse (status_code : Z) (json : result value).

Definition http_client := str -> float -> get_result.

Definition _fetch_json (client : http_client) (u : str) (timeout : float)
    : result value :=
  match client u timeout with
  | GetRaises => inr VNone
  | GetResponse status_code json =>
      if negb (status_code =? 200) then inr VNone
      else match json with
           | inr v => inr v
           | inl e => if is_ValueError e then inr VNone else inl e
           end
  end.

Definition _fetch_status (client : http_client) (u : str) (timeout : float) : bool :=
  match client u timeout with
  | GetRaises => false
  | GetResponse status_code _ => status_code =? 200
  end.

(** [state_data.get("state") if state_data else None]; only a dict has
    [get], any other true object raises [AttributeError]. *)
Definition state_of (state_data : value) : result value :=
  if truthy state_data then
    match state_data with
    | VDict d => inr (dict_get d (lit "state"))
    | _ => inl AttributeError
    end
  else inr VNone.

(** One turn of the loop of [monitor_backend], up to the sleep. *)
Definition monitor_iteration (client : http_client) (backend : Backend) : result Backend :=
  let settings := settings backend in
  let state_url := url backend ++ lit "/api/v1/state" in
  let health_url := url backend ++ lit "/health" in
  state_data ← _fetch_json client state_url (state_timeout settings);
  s ← state_of state_data;
  let backend := set_state s backend in
  let h := _fetch_status client health_url (health_timeout settings) in
  inr (set_healthy h backend).

(** ** app.py *)

Definition bytes := list Byte.byte.

(** A dict comprehension over items: a repeated key keeps its first place
    and takes its last value. *)
Fixpoint dict_set {V} (d : list (str * V)) (k : str) (v : V) : list (str * V) :=
  match d with
  | [] => [(k, v)]
  | (k', v') :: d' =>
      if bool_decide (k' = k) then (k', v) :: d' else (k', v') :: dict_set d' k v
  end.

Definition dict_of_items {V} (items : list (str * V)) : list (str * V) :=
  fold_left (fun d kv => dict_set d kv.1 kv.2) items [].

Record Request := mkRequest {
  method : str;
  path : str;
  query_params : list (str * str);
  headers : list (str * str);
  stream : list bytes
}.

(** The arguments of [client.stream(...)]. *)
Record upstream_request := mkUpstreamRequest {
  up_method : str;
  up_url : str;
  up_params : list (str * str);
  up_headers : list (str * str);
  up_content : list bytes;
  up_read_timeout : float
}.

(** An upstream response: its status, its header lines as received, and
    its body. *)
Record upstream_response := mkUpstreamResponse {
  up_status_code : Z;
  up_response_headers : list (str * str);
  up_raw : list bytes
}.

(** [upstream.headers.items()] as the HTTP client gives it: every name in
    ASCII lower case, once, at its first place, with the values of its
    lines joined by ", ". *)
Fixpoint dict_join (d : list (str * str)) (k v : str) : list (str * str) :=
  match d with
  | [] => [(k, v)]
  | (k', v') :: d' =>
      if bool_decide (k' = k) then (k', v' ++ lit ", " ++ v) :: d'
      else (k', v') :: dict_join d' k v
  end.

Definition Headers_items (lines : list (str * str)) : list (str * str) :=
  fold_left (fun d kv => dict_join d (ascii_lower kv.1) kv.2) lines [].

(** The context manager [client.stream(...)] returns: entering it sends the
    request and either raises or yields the response; leaving it may raise. *)
Record stream_context := mkStreamContext {
  aenter : result upstream_response;
  aexit : result unit
}.

Definition stream_client := upstream_request -> stream_context.

(** What a handler can change: the pool's backends, and the requests that
    went out to backends. *)
Record world := mkWorld {
  w_pool : BackendPool;
  w_sent : list upstream_request
}.

Definition M (A : Type) : Type := world -> result A * world.

#[global] Instance M_ret : MRet M := fun A a w => (inr a, w).
#[global] Instance M_bind : MBind M := fun A B k m w =>
  match m w with
  | (inl e, w') => (inl e, w')
  | (inr a, w') => k a w'
  end.

Definition raise {A} (e : exn) : M A := fun w => (inl e, w).

Definition get_pool : M BackendPool := fun w => (inr (w_pool w), w).

Definition modify_pool (f : BackendPool -> BackendPool) : M unit :=
  fun w => (inr tt, mkWorld (f (w_pool w)) (w_sent w)).

(** A pool method that returns or raises. *)
Definition call_pool {A} (f : BackendPool -> result (A * BackendPool)) : M A :=
  fun w =>
    match f (w_pool w) with
    | inl e => (inl e, w)
    | inr (a, p') => (inr a, mkWorld p' (w_sent w))
    end.

(** [await context.__aenter__()] *)
Definition enter (client : stream_client) (r : upstream_request) : M upstream_response :=
  fun w => (aenter (client r), mkWorld (w_pool w) (w_sent w ++ [r])).

(** [await context.__aexit__(None, None, None)] *)
Definition leave (client : stream_client) (r : upstream_request) : M unit :=
  fun w => (aexit (client r), w).

(** [try: body  except Exception as exc: handler(exc)] *)
Definition try_except {A} (body : M A) (handler : exn -> M A) : M A :=
  fun w =>
    match body w with
    | (inl e, w') => handler e w'
    | (inr a, w') => (inr a, w')
    end.

(** [try: body  finally: fin] *)
Definition try_finally {A} (body : M A) (fin : M unit) : M A :=
  fun w =>
    match body w with
    | (r, w') =>
        match fin w' with
        | (inl e, w'') => (inl e, w'')
        | (inr _, w'') => (r, w'')
        end
    end.

(** [with contextlib.suppress(Exception): body] *)
Definition suppress (body : M unit) : M unit :=
  try_except body (fun _ => mret tt).

Inductive Response :=
| JSONResponse (content : value)
| StreamingResponse (content : list bytes) (status_code : Z)
    (response_headers : list (str * str)) (background : M unit).

(** Whether the constructor of a response can store [headers]: it encodes
    each name, in lower case, and each value as Latin-1. *)
Definition headers_encode (headers : list (str * str)) : bool :=
  forallb (fun kv => encodes_latin1 (lower kv.1) && encodes_latin1 kv.2) headers.

(** The call [StreamingResponse(content, status_code=..., headers=...,
    background=...)]. *)
Definition new_StreamingResponse (content : list bytes) (status_code : Z)
    (headers : list (str * str)) (background : M unit) : M Response :=
  if headers_encode headers then
    mret (StreamingResponse content status_code headers background)
  else raise UnicodeEncodeError.

(** The status a response goes out with ([JSONResponse] defaults to 200). *)
Definition response_status (r : Response) : Z :=
  match r with
  | JSONResponse _ => 200
  | StreamingResponse _ status_code _ _ => status_code
  end.

Definition SUPPORTED_METHODS : list str :=
  [lit "GET"; lit "POST"; lit "PUT"; lit "PATCH"; lit "DELETE"; lit "OPTIONS"; lit "HEAD"].

Definition backend_url (p : BackendPool) (backend : nat) : str :=
  from_option url [] (backends p !! backend).

(** The path sent upstream by [_proxy_request]. *)
Definition target_path_of (request_path mount_path : str) : str :=
  if negb (bool_decide (mount_path = [])) then
    let target_path := drop (length mount_path) request_path in
    if negb (startswith target_path (lit "/")) then lit "/" ++ target_path
    else target_path
  else request_path.

Definition forwarded_headers (request : Request) : list (str * str) :=
  dict_of_items
    (List.filter (fun kv => negb (bool_decide (lower kv.1 = lit "host"))) (headers request)).

Definition filtered_headers (upstream : upstream_response) : list (str * str) :=
  dict_of_items
    (List.filter
       (fun kv => negb (bool_decide
          (lower kv.1 ∈ [lit "content-length"; lit "transfer-encoding"; lit "connection"])))
       (Headers_items (up_response_headers upstream))).

(** The arguments [_proxy_request] passes to [client.stream]. *)
Definition proxy_stream_args (request : Request) (backend_pool : BackendPool)
    (backend : nat) (mount_path : str) : upstream_request :=
  let target_path := target_path_of (path request) mount_path in
  let url := backend_url backend_pool backend ++ target_path in
  mkUpstreamRequest (method request) url (query_params request)
    (forwarded_headers request) (stream request)
    (request_timeout (pool_settings backend_pool)).

Definition _proxy_request (request : Request) (client : stream_client)
    (mount_path : str) : M Response :=
  backend ← try_except (call_pool pick_backend)
              (fun exc =>
                 match exc with
                 | RuntimeError msg | RecursionError msg =>
                     raise (HTTPException 503 msg)
                 | _ => raise exc
                 end);
  backend_pool ← get_pool;
  let context := proxy_stream_args request backend_pool backend mount_path in
  try_except
    (upstream ← enter client context;
     let _cleanup :=
       try_finally (leave client context) (modify_pool (release_backend backend)) in
     new_StreamingResponse (up_raw upstream) (up_status_code upstream)
       (filtered_headers upstream) _cleanup)
    (fun exc =>
       suppress (leave client context);;
       modify_pool (release_backend backend);;
       raise (HTTPException 502 (lit "Upstream request failed"))).

Section Routes.

Variable float_of_str : str -> option float.

(** [lifespan] up to its [yield]: the state the routes start from. *)
Definition lifespan (env : environ) : result world :=
  settings ← load float_of_str env;
  let pool := new_BackendPool settings in
  inr (mkWorld pool []).

End Routes.

Definition health : M Response :=
  pool ← get_pool;
  if negb (any_healthy pool) then
    raise (HTTPException 503 (lit "No healthy inference backends"))
  else mret (JSONResponse (VDict [(lit "status", VStr (lit "healthy"))])).

Definition proxy_inference (request : Request) (client : stream_client) : M Response :=
  _proxy_request request client [].

(** The arguments [proxy_fallback] passes to [client.stream]. *)
Definition fallback_stream_args (request : Request) (pool : BackendPool)
    (backend : Backend) : upstream_request :=
  let path_component :=
    if negb (bool_decide (path request = [])) then path request else lit "/" in
  let url := url backend ++ path_component in
  mkUpstreamRequest (method request) url (query_params request)
    (forwarded_headers request) (stream request)
    (request_timeout (pool_settings pool)).

Definition proxy_fallback (request : Request) (client : stream_client) : M Response :=
  pool ← get_pool;
  match head (backends pool) with
  | None => raise (HTTPException 503 (lit "No MLNode backends configured"))
  | Some first =>
      let backend := 0%nat in
      modify_pool (on_backend mark_request_start backend);;
      let context := fallback_stream_args request pool first in
      try_except
        (upstream ← enter client context;
         let _cleanup :=
           try_finally (leave client context)
             (modify_pool (on_backend mark_request_done backend)) in
         new_StreamingResponse (up_raw upstream) (up_status_code upstream)
           (filtered_headers upstream) _cleanup)
        (fun exc =>
           suppress (leave client context);;
           modify_pool (on_backend mark_request_done backend);;
           raise (HTTPException 502 (lit "Upstream request failed")))
  end.

(** * Properties *)

(** Values the scenarios of the design document run on. *)
Definition sample_settings : Settings :=
  mkSettings [lit "http://b1"] DEFAULT_REFRESH_INTERVAL DEFAULT_REQUEST_TIMEOUT
    DEFAULT_STATE_TIMEOUT DEFAULT_HEALTH_TIMEOUT.

Definition serving (u : string) (n : Z) : Backend :=
  mkBackend (lit u) sample_settings (VStr (lit "INFERENCE")) true n.

(** ** Vocabulary of the properties *)

(** Some backend of the pool last reported the state [s]. *)
Definition reports (p : BackendPool) (s : str) : Prop :=
  exists b, b ∈ backends p /\ state b = VStr s.

(** A backend that answers the state poll with [{"state": "INFERENCE"}]
    and every other poll with an empty 200. *)
Definition inference_http_client : http_client :=
  fun u _ =>
    if bool_decide (u = lit "http://b1/api/v1/state") then
      GetResponse 200 (inr (VDict [(lit "state", VStr (lit "INFERENCE"))]))
    else GetResponse 200 (inl ValueError).

(** [sep.join(words)] for a separator of one code point. *)
Fixpoint join (sep : N) (words : list str) : str :=
  match words with
  | [] => []
  | [w] => w
  | w :: ws => w ++ sep :: join sep ws
  end.

(** [t] is [s] without the characters at its left end that satisfy [left]
    and without those at its right end that satisfy [right]. *)
Definition trimmed (left right : N -> bool) (s t : str) : Prop :=
  exists l r,
    s = l ++ t ++ r
    /\ Forall (fun c => left c = true) l
    /\ Forall (fun c => right c = true) r
    /\ (forall c, head t = Some c -> left c = false)
    /\ (forall c, last t = Some c -> right c = false).

(** An environment that sets only [MLNODE_BACKENDS]. *)
Definition backends_env (raw : string) : environ :=
  fun name => if bool_decide (name = lit "MLNODE_BACKENDS") then Some (lit raw) else None.

(** The float variables [load] reads, each with its documented default and
    the field it fills. *)
Definition float_variables : list (str * (float * (Settings -> float))) :=
  [ (lit "MLNODE_REFRESH_INTERVAL", (2.0%float, refresh_interval));
    (lit "MLNODE_REQUEST_TIMEOUT", (30.0%float, request_timeout));
    (lit "MLNODE_STATE_TIMEOUT", (5.0%float, state_timeout));
    (lit "MLNODE_HEALTH_TIMEOUT", (2.0%float, health_timeout)) ].

(** The error [load] raises for an empty backend list. *)
Definition no_backends_error : exn :=
  RuntimeError
    (lit "MLNODE_BACKENDS environment variable must contain at least one backend URL").

(** A client whose backends cannot be reached. *)
Definition unreachable_client : stream_client :=
  fun _ => mkStreamContext (inl TransportError) (inr tt).

Definition sample_request : Request :=
  mkRequest (lit "GET") (lit "/v1/models") [] [(lit "Host", lit "balancer")] [].

(** A backend whose state poll answers 200 with a body of nothing but
    opening brackets, which [response.json()] gives up on with
    [RecursionError]. *)
Definition deep_body_http_client : http_client :=
  fun _ _ => GetResponse 200 (inl (RecursionError (lit "maximum recursion depth exceeded"))).

(** A pool whose only backend reports "STOPPED". *)
Definition stopped_pool : BackendPool :=
  mkBackendPool sample_settings
    [mkBackend (lit "http://b1") sample_settings (VStr (lit "STOPPED")) true 0].

(** ** Counters *)

Inductive counter_op := Start | Done.

Definition apply_op (b : Backend) (o : counter_op) : Backend :=
  match o with
  | Start => mark_request_start b
  | Done => mark_request_done b
  end.

(** A backend that answers every poll with 200 and the JSON list
    [["INFERENCE"]]. *)
Definition list_http_client : http_client :=
  fun _ _ => GetResponse 200 (inr (VList [VStr (lit "INFERENCE")])).

(** A [float] that reads "2.5" and rejects everything else, and an
    environment whose refresh interval is fine and whose request and state
    timeouts are not. *)
Definition reads_only_2_5 : str -> option float :=
  fun raw => if bool_decide (raw = lit "2.5") then Some 2.5%float else None.

Definition bad_timeouts_env : environ :=
  fun name =>
    if bool_decide (name = lit "MLNODE_BACKENDS") then Some (lit "http://b1")
    else if bool_decide (name = lit "MLNODE_REFRESH_INTERVAL") then Some (lit "2.5")
    else if bool_decide (name = lit "MLNODE_REQUEST_TIMEOUT") then Some (lit "abc")
    else if bool_decide (name = lit "MLNODE_STATE_TIMEOUT") then Some (lit "xyz")
    else None.

(** The value that the last item with key [k] carries, if there is one. *)
Fixpoint last_value {V} (items : list (str * V)) (k : str) : option V :=
  match items with
  | [] => None
  | (k', v') :: rest =>
      match last_value rest k with
      | Some v => Some v
      | None => if bool_decide (k' = k) then Some v' else None
      end
  end.


(** The backends [bs] after the first [j] of them were each picked once. *)
Definition started (j : nat) (bs : list Backend) : list Backend :=
  (mark_request_start <$> take j bs) ++ drop j bs.

(** One turn of the monitor task that [lifespan] starts for the backend at
    position [i]: the task holds that [Backend] object, so what the turn
    writes shows in the pool. *)
Definition monitor_turn (client : http_client) (i : nat) (p : BackendPool)
    : result BackendPool :=
  match backends p !! i with
  | None => inr p
  | Some backend =>
      backend' ← monitor_iteration client backend;
      inr (mkBackendPool (pool_settings p) (<[i := backend']> (backends p)))
  end.

(** A client whose health poll fails and whose state poll reports
    "INFERENCE". *)
Definition unhealthy_http_client : http_client :=
  fun u _ =>
    if bool_decide (u = lit "http://b1/health") then GetRaises
    else GetResponse 200 (inr (VDict [(lit "state", VStr (lit "INFERENCE"))])).

(** The values of the header lines whose name is [k] up to ASCII case, in
    the order of the lines. *)
Fixpoint header_values (lines : list (str * str)) (k : str) : list str :=
  match lines with
  | [] => []
  | (name, v) :: rest =>
      if bool_decide (ascii_lower name = k) then v :: header_values rest k
      else header_values rest k
  end.

(** [v0] followed by each of [vs] after ", ". *)
Definition comma_joined (v0 : str) (vs : list str) : str :=
  fold_left (fun acc x => acc ++ lit ", " ++ x) vs v0.


(** How many of the calls in [ops] are the given one. *)
Definition count_ops (o : counter_op) (ops : list counter_op) : Z :=
  Z.of_nat (length (List.filter
                      (fun o' => match o, o' with
                                 | Start, Start | Done, Done => true
                                 | _, _ => false
                                 end) ops)).

(** The available backends carry loads that differ by at most one. *)
Definition balanced (p : BackendPool) : Prop :=
  forall b b',
    b ∈ backends p -> b' ∈ backends p ->
    is_available b = true -> is_available b' = true ->
    active_requests b <= active_requests b' + 1.

(** [n] calls of [pick_backend], one after the other. *)
Fixpoint pick_times (n : nat) (p : BackendPool) : result BackendPool :=
  match n with
  | O => inr p
  | S n' =>
      match pick_backend p with
      | inl e => inl e
      | inr (_, p') => pick_times n' p'
      end
  end.

(** Two backends that differ at most in their counters. *)
Definition same_but_counter (b b' : Backend) : Prop :=
  url b' = url b /\ settings b' = settings b /\ state b' = state b
  /\ healthy b' = healthy b.

Lemma mark_request_start_nonneg b :
  0 <= active_requests b -> 0 <= active_requests (mark_request_start b).
Proof. cbn. lia. Qed.

Lemma mark_request_done_nonneg b :
  0 <= active_requests b -> 0 <= active_requests (mark_request_done b).
Proof.
  unfold mark_request_done. destruct (Z.ltb_spec 0 (active_requests b)); cbn; lia.
Qed.

Lemma mark_request_done_start b :
  0 <= active_requests b -> mark_request_done (mark_request_start b) = b.
Proof.
  intros Hb. unfold mark_request_done, mark_request_start, set_active_requests. cbn.
  destruct (Z.ltb_spec 0 (active_requests b + 1)); [|lia].
  destruct b; cbn. f_equal. lia.
Qed.

(** C5: the counter of a backend never goes below zero. A fresh backend
    starts at 0; from a counter that is at least 0, any sequence of
    [mark_request_start] and [mark_request_done] leaves it at least 0;
    [mark_request_start] adds exactly one; [mark_request_done] takes one away
    but stops at 0, where it changes nothing. Both are total functions, so
    neither can fail. *)
Theorem active_requests_never_negative (b : Backend) (ops : list counter_op) :
  0 <= active_requests b ->
  0 <= active_requests (fold_left apply_op ops b)
  /\ active_requests (mark_request_start b) = active_requests b + 1
  /\ active_requests (mark_request_done b) = Z.max 0 (active_requests b - 1)
  /\ (active_requests b = 0 -> mark_request_done b = b)
  /\ (forall u s, active_requests (new_Backend u s) = 0).
Proof.
  intros Hb. split; [|split; [|split; [|split]]].
  - revert b Hb. induction ops as [|o ops IH]; intros b Hb; cbn; [done|].
    apply IH. destruct o; cbn [apply_op].
    + by apply mark_request_start_nonneg.
    + by apply mark_request_done_nonneg.
  - reflexivity.
  - unfold mark_request_done.
    destruct (Z.ltb_spec 0 (active_requests b)); cbn; lia.
  - intros H0. unfold mark_request_done. by rewrite H0.
  - reflexivity.
Qed.

Lemma active_requests_never_negative_witness :
  let b := serving "http://b1" 0 in
  0 <= active_requests (fold_left apply_op [Done; Start; Done; Done] b)
  /\ active_requests (mark_request_done b) = 0.
Proof.
  intros b.
  destruct (active_requests_never_negative b [Done; Start; Done; Done]) as (H1 & _ & H3 & _).
  - cbn. lia.
  - split; [exact H1 | exact H3].
Defined.

(** ** Selection *)

Lemma is_available_iff b :
  is_available b = true <-> healthy b = true /\ state b = VStr (lit "INFERENCE").
Proof.
  unfold is_available. rewrite andb_true_iff. split.
  - intros [Hh Hs]. split; [done|].
    destruct (state b); cbn in Hs; try discriminate.
    apply bool_decide_eq_true in Hs. by subst.
  - intros [Hh Hs]. split; [done|]. rewrite Hs. cbn. by apply bool_decide_eq_true.
Qed.

(** [min] splits its input around the element it returns: everything before
    it has a strictly larger key, everything after it a key at least as large. *)
Lemma min_from_split {A} (key : A -> Z) (rest : list A) (best : A) :
  exists l1 l2,
    best :: rest = l1 ++ min_from key best rest :: l2
    /\ Forall (fun x => key (min_from key best rest) < key x) l1
    /\ Forall (fun x => key (min_from key best rest) <= key x) l2.
Proof.
  revert best. induction rest as [|x rest IH]; intros best; cbn [min_from].
  - exists [], []. by repeat split.
  - destruct (Z.ltb_spec (key x) (key best)) as [Hlt|Hge].
    + destruct (IH x) as (l1 & l2 & Heq & H1 & H2).
      remember (min_from key x rest) as r eqn:Er. clear Er.
      assert (key r <= key x) as Hrx.
      { destruct l1 as [|y l1]; cbn in Heq; inversion Heq; subst.
        - lia.
        - inversion H1; subst. lia. }
      exists (best :: l1), l2. split; [by rewrite Heq|].
      split; [constructor; [lia|done]|done].
    + destruct (IH best) as (l1 & l2 & Heq & H1 & H2).
      remember (min_from key best rest) as r eqn:Er. clear Er.
      destruct l1 as [|y l1]; cbn in Heq; inversion Heq as [[Hb Hr]].
      * exists [], (x :: l2). split; [by rewrite <- Hb|].
        split; [done|]. constructor; [rewrite <- Hb; lia | done].
      * subst y. exists (best :: x :: l1), l2. split; [done|].
        inversion H1; subst. split; [|done].
        constructor; [done|]. constructor; [lia|done].
Qed.

Lemma enumerate_from_sorted {A} (l : list A) (k : nat) :
  StronglySorted (fun x y : nat * A => (x.1 < y.1)%nat) (imap (fun j => pair (k + j)%nat) l)
  /\ Forall (fun x : nat * A => (k <= x.1)%nat) (imap (fun j => pair (k + j)%nat) l).
Proof.
  revert k. induction l as [|a l IH]; intros k; cbn.
  - split; constructor.
  - destruct (IH (S k)) as [Hs Hf].
    assert (imap ((fun j => pair (k + j)%nat) ∘ S) l
            = imap (fun j => pair (S k + j)%nat) l) as ->.
    { apply imap_ext. intros i y _. cbn. f_equal. lia. }
    split.
    + constructor; [done|]. eapply Forall_impl; [exact Hf|]. cbn. intros [j y]; cbn. lia.
    + constructor; [cbn; lia|]. eapply Forall_impl; [exact Hf|]. intros [j y]; cbn. lia.
Qed.

Lemma filter_StronglySorted {A} (R : A -> A -> Prop) (f : A -> bool) (l : list A) :
  StronglySorted R l -> StronglySorted R (List.filter f l).
Proof.
  induction 1 as [|x l Hs IH Hf]; cbn; [constructor|].
  destruct (f x); [|done]. constructor; [done|].
  apply Forall_forall. intros y Hy. apply list_elem_of_In, filter_In in Hy as [Hy _].
  rewrite Forall_forall in Hf. by apply Hf, list_elem_of_In.
Qed.

Lemma candidates_sorted p :
  StronglySorted (fun x y : nat * Backend => (x.1 < y.1)%nat) (candidates p).
Proof.
  apply filter_StronglySorted. unfold enumerate.
  destruct (enumerate_from_sorted (backends p) 0) as [Hs _].
  erewrite imap_ext; [exact Hs|]. by intros.
Qed.

Lemma elem_of_candidates p j b :
  (j, b) ∈ candidates p <-> backends p !! j = Some b /\ is_available b = true.
Proof.
  unfold candidates, enumerate. rewrite list_elem_of_In, filter_In, <- list_elem_of_In.
  rewrite elem_of_lookup_imap. cbn. split.
  - intros [(i & y & Heq & Hl) Ha]. inversion Heq; subst. done.
  - intros [Hl Ha]. split; [|done]. by exists j, b.
Qed.

Lemma candidates_nil p :
  candidates p = [] <-> Forall (fun b => is_available b = false) (backends p).
Proof.
  rewrite Forall_lookup. split.
  - intros Hc j b Hl. destruct (is_available b) eqn:Ha; [|done].
    assert ((j, b) ∈ candidates p) as Hin by by apply elem_of_candidates.
    rewrite Hc in Hin. by apply elem_of_nil in Hin.
  - intros Hall. destruct (candidates p) as [|[j b] l] eqn:Hc; [done|].
    assert ((j, b) ∈ candidates p) as Hin by (rewrite Hc; left).
    apply elem_of_candidates in Hin as [Hl Ha]. specialize (Hall j b Hl). congruence.
Qed.

Lemma alter_as_insert {A} (f : A -> A) (l : list A) (i : nat) (x : A) :
  l !! i = Some x -> alter f i l = <[i := f x]> l.
Proof.
  intros Hl. rewrite list_insert_alter. apply list_alter_ext; [|done].
  intros y Hy. congruence.
Qed.

Lemma pick_backend_raises (p : BackendPool) :
  Forall (fun b => is_available b = false) (backends p) ->
  pick_backend p = inl (RuntimeError (lit "No healthy inference backends available")).
Proof. intros Hna. unfold pick_backend. apply candidates_nil in Hna. by rewrite Hna. Qed.

Lemma pick_backend_raised (p : BackendPool) (e : exn) :
  pick_backend p = inl e ->
  e = RuntimeError (lit "No healthy inference backends available")
  /\ Forall (fun b => is_available b = false) (backends p).
Proof.
  unfold pick_backend. destruct (candidates p) as [|c rest] eqn:Hc; [|done].
  intros [= <-]. split; [done|]. by apply candidates_nil.
Qed.

Lemma pick_backend_chosen (p p' : BackendPool) (i : nat) :
  pick_backend p = inr (i, p') ->
  exists b,
    backends p !! i = Some b
    /\ is_available b = true
    /\ (forall j b', backends p !! j = Some b' -> is_available b' = true ->
          active_requests b <= active_requests b'
          /\ ((j < i)%nat -> active_requests b < active_requests b'))
    /\ p' = on_backend mark_request_start i p.
Proof.
  unfold pick_backend. destruct (candidates p) as [|c rest] eqn:Hc; [done|].
  destruct (min_from_split (fun ib : nat * Backend => active_requests ib.2) rest c)
    as (l1 & l2 & Heq & H1 & H2).
  destruct (min_from _ c rest) as [k b]. cbn [fst snd] in *.
  intros [= <- <-].
  rewrite <- Hc in Heq. clear Hc.
  assert ((k, b) ∈ candidates p) as Hib
    by (rewrite Heq; apply elem_of_app; right; left).
  apply elem_of_candidates in Hib as [Hl Ha].
  pose proof (candidates_sorted p) as Hs. rewrite Heq in Hs.
  apply StronglySorted_app_1_r in Hs. inversion Hs as [|? ? _ Hafter]; subst.
  rewrite Forall_forall in H1, H2, Hafter.
  exists b. split; [done|]. split; [done|]. split; [|done].
  intros j b' Hl' Ha'.
  assert ((j, b') ∈ candidates p) as Hin by by apply elem_of_candidates.
  rewrite Heq in Hin. apply elem_of_app in Hin as [Hin|Hin].
  - specialize (H1 _ Hin). cbn in H1. lia.
  - apply elem_of_cons in Hin as [Hin|Hin].
    + inversion Hin; subst. lia.
    + specialize (H2 _ Hin). specialize (Hafter _ Hin). cbn in *. lia.
Qed.

(** C1: [pick_backend] looks at the backends that are available (healthy and
    in state "INFERENCE"). If there is none it raises the
    no-healthy-backend error. Otherwise the backend it returns is available,
    no available backend has fewer active requests, every available backend
    configured before it has strictly more, and the pool it leaves behind is
    the old one with that backend's counter raised by one. *)
Theorem pick_backend_least_loaded (p : BackendPool) :
  (forall b, is_available b = true <->
             healthy b = true /\ state b = VStr (lit "INFERENCE"))
  /\ match pick_backend p with
     | inl e =>
         e = RuntimeError (lit "No healthy inference backends available")
         /\ Forall (fun b => is_available b = false) (backends p)
     | inr (i, p') =>
         exists b,
           backends p !! i = Some b
           /\ is_available b = true
           /\ (forall j b', backends p !! j = Some b' -> is_available b' = true ->
                 active_requests b <= active_requests b'
                 /\ ((j < i)%nat -> active_requests b < active_requests b'))
           /\ p' = mkBackendPool (pool_settings p)
                     (<[i := mark_request_start b]> (backends p))
           /\ active_requests (mark_request_start b) = active_requests b + 1
     end.
Proof.
  split; [exact is_available_iff|].
  destruct (pick_backend p) as [e|[i p']] eqn:Hpick.
  - by apply pick_backend_raised.
  - destruct (pick_backend_chosen p p' i Hpick) as (b & Hl & Ha & Hmin & ->).
    exists b. split; [done|]. split; [done|]. split; [done|]. split; [|done].
    unfold on_backend. f_equal. by apply alter_as_insert.
Qed.

(** Scenario S5: counters 3, 1, 1, all available: the second backend is
    picked and its counter becomes 2. *)
Example pick_backend_S5 :
  let p := mkBackendPool sample_settings
             [serving "http://b1" 3; serving "http://b2" 1; serving "http://b3" 1] in
  pick_backend p
  = inr (1%nat, mkBackendPool sample_settings
                  [serving "http://b1" 3; serving "http://b2" 2; serving "http://b3" 1]).
Proof. reflexivity. Qed.

(** ** Aggregate state *)

Lemma str_in_states (bs : list Backend) (s : str) :
  s <> [] ->
  str_in s (state <$> List.filter (fun b => truthy (state b)) bs) = true
  <-> exists b, b ∈ bs /\ state b = VStr s.
Proof.
  intros Hs. unfold str_in. rewrite existsb_exists. split.
  - intros (v & Hin & Heq). apply list_elem_of_In, list_elem_of_fmap in Hin as (b & -> & Hb).
    apply list_elem_of_In, filter_In in Hb as [Hb _]. exists b. split; [by apply list_elem_of_In|].
    destruct (state b); cbn in Heq; try discriminate.
    apply bool_decide_eq_true in Heq. by subst.
  - intros (b & Hb & Hst). exists (state b). split.
    + apply list_elem_of_In, list_elem_of_fmap. exists b. split; [done|].
      apply list_elem_of_In, filter_In. split; [by apply list_elem_of_In|].
      rewrite Hst. cbn. apply negb_true_iff, bool_decide_eq_false. done.
    + rewrite Hst. cbn. by apply bool_decide_eq_true.
Qed.

Lemma first_in_Some (prio : list str) (states : list value) (s : str) :
  first_in prio states = Some s
  <-> exists pre post,
        prio = pre ++ s :: post
        /\ str_in s states = true
        /\ Forall (fun t => str_in t states = false) pre.
Proof.
  induction prio as [|t prio IH]; cbn.
  - split; [done|]. intros (pre & post & Heq & _). by destruct pre.
  - destruct (str_in t states) eqn:Ht.
    + split.
      * intros [= <-]. exists [], prio. by repeat split.
      * intros (pre & post & Heq & Hs & Hpre).
        destruct pre as [|t' pre]; cbn in Heq; inversion Heq; subst; [done|].
        inversion Hpre; subst. congruence.
    + rewrite IH. split.
      * intros (pre & post & -> & Hs & Hpre). exists (t :: pre), post.
        split; [done|]. split; [done|]. by constructor.
      * intros (pre & post & Heq & Hs & Hpre).
        destruct pre as [|t' pre]; cbn in Heq; inversion Heq; subst; [congruence|].
        inversion Hpre; subst. by exists pre, post.
Qed.

Lemma first_in_None (prio : list str) (states : list value) :
  first_in prio states = None <-> Forall (fun t => str_in t states = false) prio.
Proof.
  induction prio as [|t prio IH]; cbn.
  - split; [constructor|done].
  - destruct (str_in t states) eqn:Ht.
    + split; [done|]. intros H. inversion H; subst. congruence.
    + rewrite IH. split; [by constructor|]. intros H. by inversion H.
Qed.

Lemma priority_nonempty t : t ∈ priority -> t <> [].
Proof.
  unfold priority. rewrite !elem_of_cons, elem_of_nil.
  intros [->|[->|[->|[->|[]]]]]; discriminate.
Qed.

Lemma str_in_reports (p : BackendPool) (t : str) :
  t ∈ priority ->
  str_in t (state <$> List.filter (fun b => truthy (state b)) (backends p)) = true
  <-> reports p t.
Proof. intros Ht. apply str_in_states. by apply priority_nonempty. Qed.

Lemma str_in_not_reports (p : BackendPool) (t : str) :
  t ∈ priority ->
  str_in t (state <$> List.filter (fun b => truthy (state b)) (backends p)) = false
  <-> ~ reports p t.
Proof.
  intros Ht. rewrite <- (str_in_reports p t Ht). by destruct (str_in _ _).
Qed.

Lemma aggregate_state_none_reported (p : BackendPool) :
  (forall t, t ∈ priority -> ~ reports p t) -> aggregate_state p = lit "STOPPED".
Proof.
  intros Hno. unfold aggregate_state.
  assert (first_in priority
            (state <$> List.filter (fun b => truthy (state b)) (backends p)) = None) as ->.
  { apply first_in_None, Forall_forall. intros t Ht.
    apply str_in_not_reports; [done|]. by apply Hno. }
  done.
Qed.

Lemma aggregate_state_unknown (p : BackendPool) :
  (forall b, b ∈ backends p -> state b = VNone) -> aggregate_state p = lit "STOPPED".
Proof.
  intros Hall. apply aggregate_state_none_reported. intros t _ (b & Hb & Hst).
  rewrite (Hall b Hb) in Hst. discriminate.
Qed.

(** C3, as the code has it: [aggregate_state] returns the first element of
    the priority list that is the state of some backend when there is one,
    and "STOPPED" when there is none. So it returns "STOPPED" whenever no
    backend has a known state, and in general exactly when no backend
    reports "INFERENCE", "POW" or "TRAIN": a backend that reports "STOPPED",
    or a state outside the list, also leads to "STOPPED". *)
Theorem aggregate_state_first_priority (p : BackendPool) :
  (forall pre s post,
      priority = pre ++ s :: post -> reports p s ->
      (forall t, t ∈ pre -> ~ reports p t) ->
      aggregate_state p = s)
  /\ ((forall t, t ∈ priority -> ~ reports p t) -> aggregate_state p = lit "STOPPED")
  /\ ((forall b, b ∈ backends p -> state b = VNone) -> aggregate_state p = lit "STOPPED")
  /\ (aggregate_state p = lit "STOPPED"
      <-> ~ reports p (lit "INFERENCE") /\ ~ reports p (lit "POW")
          /\ ~ reports p (lit "TRAIN")).
Proof.
  split; [|split; [apply aggregate_state_none_reported|split]].
  - intros pre s post Hsplit Hs Hpre. unfold aggregate_state.
    assert (first_in priority
              (state <$> List.filter (fun b => truthy (state b)) (backends p)) = Some s) as ->.
    { apply first_in_Some. exists pre, post. split; [done|].
      assert (s ∈ priority) as Hin by (rewrite Hsplit; apply elem_of_app; right; left).
      split; [by apply str_in_reports|].
      apply Forall_forall. intros t Ht. apply str_in_not_reports; [|by apply Hpre].
      rewrite Hsplit. apply elem_of_app. by left. }
    done.
  - apply aggregate_state_unknown.
  - assert (lit "INFERENCE" ∈ priority) as HI by (unfold priority; rewrite !elem_of_cons; tauto).
    assert (lit "POW" ∈ priority) as HP by (unfold priority; rewrite !elem_of_cons; tauto).
    assert (lit "TRAIN" ∈ priority) as HT by (unfold priority; rewrite !elem_of_cons; tauto).
    rewrite <- (str_in_not_reports p _ HI), <- (str_in_not_reports p _ HP),
      <- (str_in_not_reports p _ HT).
    unfold aggregate_state, priority. cbn [first_in].
    destruct (str_in (lit "INFERENCE") _); [split; [discriminate|by intros [? _]]|].
    destruct (str_in (lit "POW") _); [split; [discriminate|by intros (_ & ? & _)]|].
    destruct (str_in (lit "TRAIN") _); [split; [discriminate|by intros (_ & _ & ?)]|].
    split; [done|]. intros _. by destruct (str_in _ _).
Qed.

(** C3 as stated fails: with one backend that reports "STOPPED" the
    aggregate is "STOPPED" although a backend has a known state. *)
Lemma aggregate_state_stopped_with_known_state :
  aggregate_state stopped_pool = lit "STOPPED"
  /\ (exists b, b ∈ backends stopped_pool /\ state b <> VNone)
  /\ ~ (aggregate_state stopped_pool = lit "STOPPED"
        <-> forall b, b ∈ backends stopped_pool -> state b = VNone).
Proof.
  assert (exists b, b ∈ backends stopped_pool /\ state b <> VNone) as Hex.
  { eexists. split; [left|]. discriminate. }
  split; [reflexivity|]. split; [exact Hex|].
  intros [Hto _]. destruct Hex as (b & Hb & Hst). apply Hst, Hto; [reflexivity|done].
Qed.

(** ** A pool before the first poll *)

Lemma new_BackendPool_fresh (s : Settings) :
  Forall (fun b => state b = VNone /\ healthy b = false /\ active_requests b = 0)
    (backends (new_BackendPool s)).
Proof.
  unfold new_BackendPool. cbn. apply Forall_fmap, Forall_forall. by intros u _.
Qed.

(** C9: a backend as the constructor leaves it has no state, is not healthy
    and has no active request. So in a pool that was just built no backend
    is available, [pick_backend] raises, [any_healthy] is false and
    [aggregate_state] is "STOPPED". *)
Theorem fresh_pool_has_no_available_backend (s : Settings) (u : str) :
  state (new_Backend u s) = VNone
  /\ healthy (new_Backend u s) = false
  /\ active_requests (new_Backend u s) = 0
  /\ backends (new_BackendPool s) = (fun u => new_Backend u s) <$> backend_urls s
  /\ Forall (fun b => is_available b = false) (backends (new_BackendPool s))
  /\ pick_backend (new_BackendPool s)
     = inl (RuntimeError (lit "No healthy inference backends available"))
  /\ any_healthy (new_BackendPool s) = false
  /\ aggregate_state (new_BackendPool s) = lit "STOPPED".
Proof.
  pose proof (new_BackendPool_fresh s) as Hfresh.
  assert (Forall (fun b => is_available b = false) (backends (new_BackendPool s))) as Hna.
  { eapply Forall_impl; [exact Hfresh|]. intros b (Hst & Hh & _).
    unfold is_available. by rewrite Hh. }
  repeat split; try done.
  - unfold pick_backend. apply candidates_nil in Hna. by rewrite Hna.
  - unfold any_healthy. apply not_true_iff_false. rewrite existsb_exists.
    intros (b & Hb & Ha). rewrite Forall_forall in Hna.
    apply list_elem_of_In in Hb. specialize (Hna b Hb). congruence.
  - apply aggregate_state_unknown. intros b Hb.
    rewrite Forall_forall in Hfresh. by apply Hfresh.
Qed.

(** ** Path rewrite *)

Lemma startswith_prefix (s prefix : str) :
  startswith s prefix = true <-> exists rest, s = prefix ++ rest.
Proof.
  revert s. induction prefix as [|c prefix IH]; intros s; cbn.
  - split; [by exists s|done].
  - destruct s as [|d s]; cbn.
    + split; [done|]. by intros (rest & ?).
    + rewrite andb_true_iff, N.eqb_eq, IH. split.
      * intros [-> (rest & ->)]. by exists rest.
      * intros (rest & Heq). inversion Heq; subst. split; [done|]. by exists rest.
Qed.

(** C4, as the code has it: with an empty [mount_path] the request path is
    forwarded as it is. With a non-empty [mount_path] the handler drops as
    many characters from the front of the request path as [mount_path] has,
    whether or not they are [mount_path], and puts a "/" in front of what is
    left unless that already starts with "/". For a request path that
    starts with [mount_path] this strips the prefix. *)
Theorem target_path_of_drops_mount_length (request_path mount_path : str) :
  (mount_path = [] -> target_path_of request_path mount_path = request_path)
  /\ (mount_path <> [] ->
      let remainder := drop (length mount_path) request_path in
      target_path_of request_path mount_path
      = (if startswith remainder (lit "/") then remainder else lit "/" ++ remainder)
      /\ startswith (target_path_of request_path mount_path) (lit "/") = true)
  /\ (forall rest,
        mount_path <> [] -> request_path = mount_path ++ rest ->
        startswith request_path mount_path = true
        /\ target_path_of request_path mount_path
           = (if startswith rest (lit "/") then rest else lit "/" ++ rest)).
Proof.
  assert (mount_path <> [] ->
          target_path_of request_path mount_path
          = (if startswith (drop (length mount_path) request_path) (lit "/")
             then drop (length mount_path) request_path
             else lit "/" ++ drop (length mount_path) request_path)) as Hgen.
  { intros Hm. unfold target_path_of. rewrite bool_decide_eq_false_2 by done. cbn [negb].
    by destruct (startswith _ _). }
  split; [|split].
  - intros ->. reflexivity.
  - intros Hm remainder. split; [by apply Hgen|].
    rewrite (Hgen Hm). fold remainder.
    destruct (startswith remainder (lit "/")) eqn:Hs; [done|].
    cbn. by rewrite N.eqb_refl.
  - intros rest Hm ->. split; [apply startswith_prefix; by exists rest|].
    rewrite (Hgen Hm). by rewrite drop_app_length.
Qed.

Lemma target_path_of_drops_mount_length_witness :
  startswith (lit "/api/v1/models") (lit "/api") = true
  /\ target_path_of (lit "/api/v1/models") (lit "/api") = lit "/v1/models".
Proof.
  destruct (target_path_of_drops_mount_length (lit "/api/v1/models") (lit "/api"))
    as (_ & _ & H).
  destruct (H (lit "/v1/models")) as [H1 H2]; [discriminate|reflexivity|].
  split; [exact H1|exact H2].
Defined.

(** C4 as stated fails: "/v1/models" does not start with "/api", yet with
    that mount path the handler forwards "/models". *)
Lemma target_path_of_strips_without_prefix :
  startswith (lit "/v1/models") (lit "/api") = false
  /\ target_path_of (lit "/v1/models") (lit "/api") = lit "/models"
  /\ target_path_of (lit "/v1/models") (lit "/api") <> lit "/v1/models".
Proof. split; [reflexivity|]. split; [reflexivity|discriminate]. Qed.

(** ** Monitor *)

Lemma dict_get_absent (d : list (str * value)) (key : str) :
  key ∉ d.*1 -> dict_get d key = VNone.
Proof.
  induction d as [|[k v] d IH]; cbn; [done|].
  rewrite not_elem_of_cons. intros [Hne Hd].
  rewrite bool_decide_eq_false_2 by done. by apply IH.
Qed.

Lemma dict_get_present (d : list (str * value)) (key : str) (v : value) :
  NoDup d.*1 -> (key, v) ∈ d -> dict_get d key = v.
Proof.
  induction d as [|[k w] d IH]; cbn.
  - intros _ Hin. by apply elem_of_nil in Hin.
  - rewrite NoDup_cons, elem_of_cons. intros [Hk Hnd] [Heq|Hin].
    + inversion Heq; subst. by rewrite bool_decide_eq_true_2.
    + rewrite bool_decide_eq_false_2; [by apply IH|].
      intros ->. apply Hk. apply list_elem_of_fmap. by exists (key, v).
Qed.

Lemma _fetch_status_true (client : http_client) (u : str) (timeout : float) :
  _fetch_status client u timeout = true
  <-> exists body, client u timeout = GetResponse 200 body.
Proof.
  unfold _fetch_status. destruct (client u timeout) as [|c body].
  - split; [done|]. by intros (? & ?).
  - rewrite Z.eqb_eq. split.
    + intros ->. by exists body.
    + intros (? & Heq). by inversion Heq.
Qed.

Lemma state_of_dict (d : list (str * value)) :
  state_of (VDict d) = inr (dict_get d (lit "state")).
Proof. by destruct d. Qed.

Lemma monitor_iteration_unfold (client : http_client) (b : Backend) :
  monitor_iteration client b
  = match _fetch_json client (url b ++ lit "/api/v1/state")
            (state_timeout (settings b)) with
    | inl e => inl e
    | inr state_data =>
        match state_of state_data with
        | inl e => inl e
        | inr s =>
            inr (mkBackend (url b) (settings b) s
                   (_fetch_status client (url b ++ lit "/health")
                      (health_timeout (settings b)))
                   (active_requests b))
        end
    end.
Proof.
  unfold monitor_iteration, mbind, result_bind. cbn zeta.
  destruct (_fetch_json _ _ _) as [e|state_data]; [done|].
  by destruct (state_of state_data).
Qed.

(** What [_fetch_json] makes of each answer of the client. *)
Lemma _fetch_json_cases (client : http_client) (u : str) (t : float) :
  _fetch_json client u t
  = match client u t with
    | GetRaises => inr VNone
    | GetResponse c json =>
        if c =? 200 then
          match json with
          | inr v => inr v
          | inl e => if is_ValueError e then inr VNone else inl e
          end
        else inr VNone
    end.
Proof.
  unfold _fetch_json. destruct (client u t) as [|c json]; [done|].
  by destruct (c =? 200).
Qed.

(** X18: the polls a turn of the monitor handles. When the state poll
    answers 200 with a JSON object, [state] becomes the value the object has
    under "state" ([None] when it has none); when the poll raises, answers
    another status, or has a body for which [response.json()] raises
    [ValueError], [state] becomes [None]. In each of these cases the turn
    goes on to the health poll and [healthy] becomes true exactly when that
    poll answers 200; a poll that raises gives false. *)
Theorem monitor_iteration_refreshes_state_and_health
    (client : http_client) (backend : Backend) :
  let state_poll :=
    client (url backend ++ lit "/api/v1/state") (state_timeout (settings backend)) in
  let health_poll :=
    client (url backend ++ lit "/health") (health_timeout (settings backend)) in
  let health_ok := exists body, health_poll = GetResponse 200 body in
  let updated (s : value) :=
    exists h,
      monitor_iteration client backend
      = inr (mkBackend (url backend) (settings backend) s h (active_requests backend))
      /\ (h = true <-> health_ok) in
  (forall d, state_poll = GetResponse 200 (inr (VDict d)) ->
     updated (dict_get d (lit "state"))
     /\ (lit "state" ∉ d.*1 -> dict_get d (lit "state") = VNone)
     /\ (forall v, NoDup d.*1 -> (lit "state", v) ∈ d -> dict_get d (lit "state") = v))
  /\ (state_poll = GetRaises -> updated VNone)
  /\ (forall c body, state_poll = GetResponse c body -> c <> 200 -> updated VNone)
  /\ (forall c e, state_poll = GetResponse c (inl e) -> is_ValueError e = true ->
        updated VNone)
  /\ (health_poll = GetRaises -> ~ health_ok).
Proof.
  intros state_poll health_poll health_ok updated.
  assert (forall state_data s,
            _fetch_json client (url backend ++ lit "/api/v1/state")
              (state_timeout (settings backend)) = inr state_data ->
            state_of state_data = inr s -> updated s) as Hgo.
  { intros state_data s Hfetch Hstate.
    exists (_fetch_status client (url backend ++ lit "/health")
              (health_timeout (settings backend))).
    split; [|apply _fetch_status_true].
    rewrite monitor_iteration_unfold, Hfetch, Hstate. reflexivity. }
  rewrite _fetch_json_cases in Hgo. fold state_poll in Hgo. clearbody state_poll.
  split; [|split; [|split; [|split]]].
  - intros d Hpoll. split; [|split].
    + eapply Hgo; [by rewrite Hpoll|]. apply state_of_dict.
    + apply dict_get_absent.
    + apply dict_get_present.
  - intros Hpoll. eapply Hgo; [by rewrite Hpoll|]. reflexivity.
  - intros c body Hpoll Hc. apply (Hgo VNone); [|reflexivity].
    rewrite Hpoll. by rewrite (proj2 (Z.eqb_neq c 200) Hc).
  - intros c e Hpoll He. apply (Hgo VNone); [|reflexivity].
    rewrite Hpoll, He. by destruct (c =? 200).
  - intros Hpoll (body & Hbody). congruence.
Qed.

Lemma monitor_iteration_refreshes_state_and_health_witness :
  monitor_iteration inference_http_client (new_Backend (lit "http://b1") sample_settings)
  = inr (serving "http://b1" 0).
Proof.
  destruct (monitor_iteration_refreshes_state_and_health inference_http_client
              (new_Backend (lit "http://b1") sample_settings)) as (H & _).
  destruct (H [(lit "state", VStr (lit "INFERENCE"))] eq_refl) as ((h & -> & Hh) & _).
  assert (h = true) as -> by (apply Hh; by exists (inl ValueError)).
  reflexivity.
Defined.

(** C6, where the code departs from it: [_fetch_json] catches only
    [ValueError] around [response.json()]. When the state poll answers 200
    and decoding the body raises anything else, as [RecursionError] for a
    body that opens too many brackets, the exception leaves the turn:
    [state] is not set to [None], the health poll is not made, and the
    monitor of that backend ends. *)
Theorem monitor_iteration_escapes_json_error
    (client : http_client) (backend : Backend) (e : exn) :
  client (url backend ++ lit "/api/v1/state") (state_timeout (settings backend))
  = GetResponse 200 (inl e) ->
  is_ValueError e = false ->
  monitor_iteration client backend = inl e.
Proof.
  intros Hpoll He. rewrite monitor_iteration_unfold, _fetch_json_cases, Hpoll.
  cbn. by rewrite He.
Qed.

Lemma monitor_iteration_escapes_json_error_witness :
  monitor_iteration deep_body_http_client (serving "http://b1" 0)
  = inl (RecursionError (lit "maximum recursion depth exceeded")).
Proof.
  apply (monitor_iteration_escapes_json_error deep_body_http_client
           (serving "http://b1" 0)); reflexivity.
Defined.

(** ** Settings *)

Lemma split_nonempty (sep : N) (s : str) : split sep s <> [].
Proof.
  destruct s as [|c s]; cbn; [done|].
  destruct (c =? sep)%N; [done|]. by destruct (split sep s).
Qed.

Lemma join_cons (sep : N) (w : str) (ws : list str) :
  ws <> [] -> join sep (w :: ws) = w ++ sep :: join sep ws.
Proof. by destruct ws. Qed.

Lemma join_split (sep : N) (s : str) : join sep (split sep s) = s.
Proof.
  induction s as [|c s IH]; [done|]. cbn [split].
  destruct (N.eqb_spec c sep) as [->|Hne].
  - rewrite join_cons by apply split_nonempty. cbn. by rewrite IH.
  - pose proof (split_nonempty sep s) as Hn.
    destruct (split sep s) as [|w ws]; [done|].
    destruct ws as [|w' ws].
    + cbn in *. by rewrite IH.
    + rewrite join_cons by done. rewrite join_cons in IH by done.
      cbn. by rewrite <- IH.
Qed.

Lemma split_no_sep (sep : N) (s : str) : Forall (fun w => sep ∉ w) (split sep s).
Proof.
  induction s as [|c s IH]; cbn.
  - constructor; [apply not_elem_of_nil|constructor].
  - destruct (N.eqb_spec c sep) as [->|Hne].
    + constructor; [apply not_elem_of_nil|done].
    + destruct (split sep s) as [|w ws].
      * constructor; [|constructor]. rewrite elem_of_cons, elem_of_nil.
        by intros [->|[]].
      * inversion IH; subst. constructor; [|done].
        rewrite elem_of_cons. by intros [->|?].
Qed.

Lemma lstrip_by_spec (f : N -> bool) (s : str) :
  exists l,
    s = l ++ lstrip_by f s
    /\ Forall (fun c => f c = true) l
    /\ (forall c, head (lstrip_by f s) = Some c -> f c = false).
Proof.
  induction s as [|c s (l & Heq & Hl & Hh)]; cbn.
  - exists []. by repeat split.
  - destruct (f c) eqn:Hc.
    + exists (c :: l). split; [cbn; congruence|]. split; [by constructor|done].
    + exists []. split; [done|]. split; [constructor|]. cbn. by intros ? [= <-].
Qed.

Lemma rstrip_by_spec (f : N -> bool) (s : str) :
  exists r,
    s = rstrip_by f s ++ r
    /\ Forall (fun c => f c = true) r
    /\ (forall c, last (rstrip_by f s) = Some c -> f c = false).
Proof.
  unfold rstrip_by. destruct (lstrip_by_spec f (reverse s)) as (l & Heq & Hl & Hh).
  exists (reverse l). split; [|split].
  - rewrite <- reverse_app, <- Heq. by rewrite reverse_involutive.
  - by apply Forall_reverse.
  - intros c. rewrite last_reverse. apply Hh.
Qed.

Lemma strip_trimmed (s : str) : trimmed isspace isspace s (strip s).
Proof.
  unfold strip. destruct (lstrip_by_spec isspace s) as (l & Hs & Hl & Hh).
  destruct (rstrip_by_spec isspace (lstrip_by isspace s)) as (r & Ht & Hr & Hlast).
  exists l, r. split; [by rewrite <- Ht|]. split; [done|]. split; [done|].
  split; [|done]. intros c Hc. apply Hh. rewrite Ht.
  by destruct (rstrip_by isspace (lstrip_by isspace s)).
Qed.

Lemma rstrip_trimmed (chars s : str) :
  trimmed (fun _ => false) (fun c => bool_decide (c ∈ chars)) s (rstrip chars s).
Proof.
  unfold rstrip.
  destruct (rstrip_by_spec (fun c => bool_decide (c ∈ chars)) s) as (r & Hs & Hr & Hlast).
  exists [], r. by repeat split.
Qed.

Lemma _float_env_absent f (env : environ) (name : str) (d : float) :
  env name = None -> _float_env f env name d = inr d.
Proof. unfold _float_env. by intros ->. Qed.

Lemma _float_env_malformed f (env : environ) (name raw : str) (d : float) :
  env name = Some raw -> f raw = None ->
  _float_env f env name d
  = inl (RuntimeError (lit "Invalid float value for " ++ name ++ lit ": " ++ raw)).
Proof. unfold _float_env. by intros -> ->. Qed.

Lemma _float_env_parsed f (env : environ) (name raw : str) (d x : float) :
  env name = Some raw -> _float_env f env name d = inr x -> f raw = Some x.
Proof. unfold _float_env. intros ->. destruct (f raw); congruence. Qed.

Lemma _float_env_raises f (env : environ) (name : str) (d : float) (e : exn) :
  _float_env f env name d = inl e -> exists msg, e = RuntimeError msg.
Proof.
  unfold _float_env. destruct (env name) as [raw|]; [|done].
  destruct (f raw); [done|]. intros [= <-]. by eexists.
Qed.

(** What [load] returns, read off its four [_float_env] calls. *)
Lemma load_unfold f (env : environ) :
  load f env
  = if bool_decide (parse_backends (default [] (env (lit "MLNODE_BACKENDS"))) = []) then
      inl (RuntimeError
             (lit "MLNODE_BACKENDS environment variable must contain at least one backend URL"))
    else
      match _float_env f env (lit "MLNODE_REFRESH_INTERVAL") DEFAULT_REFRESH_INTERVAL,
            _float_env f env (lit "MLNODE_REQUEST_TIMEOUT") DEFAULT_REQUEST_TIMEOUT,
            _float_env f env (lit "MLNODE_STATE_TIMEOUT") DEFAULT_STATE_TIMEOUT,
            _float_env f env (lit "MLNODE_HEALTH_TIMEOUT") DEFAULT_HEALTH_TIMEOUT with
      | inl e, _, _, _ => inl e
      | inr _, inl e, _, _ => inl e
      | inr _, inr _, inl e, _ => inl e
      | inr _, inr _, inr _, inl e => inl e
      | inr ri, inr rt, inr st, inr ht =>
          inr (mkSettings (parse_backends (default [] (env (lit "MLNODE_BACKENDS"))))
                 ri rt st ht)
      end.
Proof.
  unfold load. cbn zeta. destruct (bool_decide _); [done|].
  destruct (_float_env f env (lit "MLNODE_REFRESH_INTERVAL") _); [done|].
  destruct (_float_env f env (lit "MLNODE_REQUEST_TIMEOUT") _); [done|].
  destruct (_float_env f env (lit "MLNODE_STATE_TIMEOUT") _); [done|].
  by destruct (_float_env f env (lit "MLNODE_HEALTH_TIMEOUT") _).
Qed.

Lemma load_backend_urls f (env : environ) (s : Settings) :
  load f env = inr s ->
  backend_urls s = parse_backends (default [] (env (lit "MLNODE_BACKENDS")))
  /\ backend_urls s <> [].
Proof.
  rewrite load_unfold. case_bool_decide as Hne; [done|].
  destruct (_float_env f env (lit "MLNODE_REFRESH_INTERVAL") _); [done|].
  destruct (_float_env f env (lit "MLNODE_REQUEST_TIMEOUT") _); [done|].
  destruct (_float_env f env (lit "MLNODE_STATE_TIMEOUT") _); [done|].
  destruct (_float_env f env (lit "MLNODE_HEALTH_TIMEOUT") _); [done|].
  by intros [= <-].
Qed.

Lemma _float_env_message f (env : environ) (name : str) (d : float) (e : exn) :
  _float_env f env name d = inl e -> e <> no_backends_error.
Proof.
  unfold _float_env. destruct (env name) as [raw|]; [|done].
  destruct (f raw); [done|]. intros [= <-] Heq. inversion Heq.
Qed.

Lemma float_variables_cases (P : str -> float -> (Settings -> float) -> Prop) :
  P (lit "MLNODE_REFRESH_INTERVAL") DEFAULT_REFRESH_INTERVAL refresh_interval ->
  P (lit "MLNODE_REQUEST_TIMEOUT") DEFAULT_REQUEST_TIMEOUT request_timeout ->
  P (lit "MLNODE_STATE_TIMEOUT") DEFAULT_STATE_TIMEOUT state_timeout ->
  P (lit "MLNODE_HEALTH_TIMEOUT") DEFAULT_HEALTH_TIMEOUT health_timeout ->
  forall name d field, (name, (d, field)) ∈ float_variables -> P name d field.
Proof.
  intros H1 H2 H3 H4 name d field. unfold float_variables.
  rewrite !elem_of_cons, elem_of_nil.
  intros [Heq|[Heq|[Heq|[Heq|[]]]]]; inversion Heq; subst; assumption.
Qed.

(** How the outcome of [load] depends on one of its float variables. *)
Lemma load_float_variable f (env : environ) (name : str) (d : float)
    (field : Settings -> float) :
  (name, (d, field)) ∈ float_variables ->
  (forall s, load f env = inr s -> _float_env f env name d = inr (field s))
  /\ (forall e, _float_env f env name d = inl e -> exists msg, load f env = inl (RuntimeError msg)).
Proof.
  revert name d field. apply float_variables_cases.
  all: rewrite load_unfold; case_bool_decide as Hne;
    [split; [done|intros; by eexists]|].
  all: destruct (_float_env f env (lit "MLNODE_REFRESH_INTERVAL") _) as [e1|x1] eqn:E1;
    [apply _float_env_raises in E1 as [m1 ->]; split; [done|intros; by eexists]|].
  all: destruct (_float_env f env (lit "MLNODE_REQUEST_TIMEOUT") _) as [e2|x2] eqn:E2;
    [apply _float_env_raises in E2 as [m2 ->]; split; [done|intros; by eexists]|].
  all: destruct (_float_env f env (lit "MLNODE_STATE_TIMEOUT") _) as [e3|x3] eqn:E3;
    [apply _float_env_raises in E3 as [m3 ->]; split; [done|intros; by eexists]|].
  all: destruct (_float_env f env (lit "MLNODE_HEALTH_TIMEOUT") _) as [e4|x4] eqn:E4;
    [apply _float_env_raises in E4 as [m4 ->]; split; [done|intros; by eexists]|].
  all: split; [by intros s [= <-]|intros e He; congruence].
Qed.

(** C7: [load] cuts [MLNODE_BACKENDS] at its commas, drops the pieces that
    are blank, and takes each other piece without the whitespace around it
    and then without the "/" at its end. It raises the error about
    [MLNODE_BACKENDS] exactly when that list is empty. Each float variable
    that is absent gives its default (2.0, 30.0, 5.0, 2.0), one that is set
    gives what [float] reads from it, and one that [float] rejects makes
    [load] raise; with a non-empty list and no rejected variable [load]
    returns. *)
Theorem load_parses_backends_and_floats
    (float_of_str : str -> option float) (env : environ) :
  let raw := default [] (env (lit "MLNODE_BACKENDS")) in
  let urls := parse_backends raw in
  join 44 (split 44 raw) = raw
  /\ Forall (fun piece => 44%N ∉ piece) (split 44 raw)
  /\ urls = (fun piece => rstrip (lit "/") (strip piece))
              <$> List.filter (fun piece => negb (bool_decide (strip piece = [])))
                    (split 44 raw)
  /\ (forall piece,
        trimmed isspace isspace piece (strip piece)
        /\ trimmed (fun _ => false) (fun c => bool_decide (c ∈ lit "/"))
             (strip piece) (rstrip (lit "/") (strip piece)))
  /\ (load float_of_str env = inl no_backends_error <-> urls = [])
  /\ (forall s, load float_of_str env = inr s ->
        backend_urls s = urls
        /\ forall name d field, (name, (d, field)) ∈ float_variables ->
             (env name = None -> field s = d)
             /\ (forall v, env name = Some v -> float_of_str v = Some (field s)))
  /\ (forall name d field v,
        (name, (d, field)) ∈ float_variables ->
        env name = Some v -> float_of_str v = None ->
        exists msg, load float_of_str env = inl (RuntimeError msg))
  /\ (urls <> [] ->
      (forall name d field v,
         (name, (d, field)) ∈ float_variables ->
         env name = Some v -> float_of_str v <> None) ->
      exists s, load float_of_str env = inr s).
Proof.
  intros raw urls.
  split; [apply join_split|]. split; [apply split_no_sep|]. split; [done|].
  split; [intros piece; split; [apply strip_trimmed|apply rstrip_trimmed]|].
  split; [|split; [|split]].
  - split.
    + intros Hload. destruct (decide (urls = [])) as [|Hne]; [done|exfalso].
      rewrite load_unfold in Hload. fold raw urls in Hload.
      rewrite bool_decide_eq_false_2 in Hload by done.
      destruct (_float_env float_of_str env (lit "MLNODE_REFRESH_INTERVAL") _) eqn:E1;
        [apply _float_env_message in E1; congruence|].
      destruct (_float_env float_of_str env (lit "MLNODE_REQUEST_TIMEOUT") _) eqn:E2;
        [apply _float_env_message in E2; congruence|].
      destruct (_float_env float_of_str env (lit "MLNODE_STATE_TIMEOUT") _) eqn:E3;
        [apply _float_env_message in E3; congruence|].
      destruct (_float_env float_of_str env (lit "MLNODE_HEALTH_TIMEOUT") _) eqn:E4;
        [apply _float_env_message in E4; congruence|].
      discriminate.
    + intros Hnil. rewrite load_unfold. fold raw urls.
      by rewrite bool_decide_eq_true_2.
  - intros s Hload. split; [by apply load_backend_urls in Hload as [? _]|].
    intros name d field Hin.
    destruct (load_float_variable float_of_str env name d field Hin) as [Hok _].
    specialize (Hok s Hload). split.
    + intros Hnone. rewrite _float_env_absent in Hok by done. congruence.
    + intros v Hv. by eapply _float_env_parsed.
  - intros name d field v Hin Hv Hbad.
    destruct (load_float_variable float_of_str env name d field Hin) as [_ Hraise].
    eapply Hraise. by apply _float_env_malformed.
  - intros Hne Hgood. rewrite load_unfold. fold raw urls.
    rewrite bool_decide_eq_false_2 by done.
    assert (forall name d field, (name, (d, field)) ∈ float_variables ->
              exists x, _float_env float_of_str env name d = inr x) as Hall.
    { intros name d field Hin. unfold _float_env.
      destruct (env name) as [v|] eqn:Hv; [|by eexists].
      specialize (Hgood name d field v Hin Hv).
      destruct (float_of_str v); [by eexists|done]. }
    destruct (Hall (lit "MLNODE_REFRESH_INTERVAL") DEFAULT_REFRESH_INTERVAL refresh_interval) as [x1 ->];
      [unfold float_variables; rewrite !elem_of_cons; tauto|].
    destruct (Hall (lit "MLNODE_REQUEST_TIMEOUT") DEFAULT_REQUEST_TIMEOUT request_timeout) as [x2 ->];
      [unfold float_variables; rewrite !elem_of_cons; tauto|].
    destruct (Hall (lit "MLNODE_STATE_TIMEOUT") DEFAULT_STATE_TIMEOUT state_timeout) as [x3 ->];
      [unfold float_variables; rewrite !elem_of_cons; tauto|].
    destruct (Hall (lit "MLNODE_HEALTH_TIMEOUT") DEFAULT_HEALTH_TIMEOUT health_timeout) as [x4 ->];
      [unfold float_variables; rewrite !elem_of_cons; tauto|].
    by eexists.
Qed.

Lemma load_parses_backends_and_floats_witness :
  exists s,
    load (fun _ => None) (backends_env " http://b1/ , ,http://b2") = inr s
    /\ backend_urls s = [lit "http://b1"; lit "http://b2"]
    /\ refresh_interval s = 2.0%float.
Proof.
  destruct (load_parses_backends_and_floats (fun _ => None)
              (backends_env " http://b1/ , ,http://b2"))
    as (_ & _ & _ & _ & _ & Hok & _ & Hret).
  destruct Hret as [s Hs].
  - discriminate.
  - intros name d field v Hin Hv. unfold backends_env in Hv.
    case_bool_decide; [subst name|done]. exfalso. revert Hin.
    unfold float_variables. rewrite !elem_of_cons, elem_of_nil.
    intros [Heq|[Heq|[Heq|[Heq|[]]]]]; inversion Heq.
  - exists s. split; [done|]. destruct (Hok s Hs) as [Hurls Hfloats].
    split; [by rewrite Hurls|].
    destruct (Hfloats (lit "MLNODE_REFRESH_INTERVAL") 2.0%float refresh_interval)
      as [Hdef _]; [left|]. by apply Hdef.
Defined.

(** ** Routes *)

Lemma any_healthy_iff (p : BackendPool) :
  any_healthy p = true
  <-> exists b, b ∈ backends p /\ healthy b = true /\ state b = VStr (lit "INFERENCE").
Proof.
  unfold any_healthy. rewrite existsb_exists. split.
  - intros (b & Hb & Ha). exists b. split; [by apply list_elem_of_In|].
    by apply is_available_iff.
  - intros (b & Hb & Ha). exists b. split; [by apply list_elem_of_In|].
    by apply is_available_iff.
Qed.

(** C8: [/health] answers 200 with [{"status": "healthy"}] exactly when some
    backend is healthy and in state "INFERENCE", and raises 503 "No healthy
    inference backends" exactly when none is. Either way the pool and the
    list of requests sent to backends are as before. *)
Theorem health_reports_availability (w : world) :
  let some_available :=
    exists b, b ∈ backends (w_pool w) /\ healthy b = true
              /\ state b = VStr (lit "INFERENCE") in
  let healthy_body := JSONResponse (VDict [(lit "status", VStr (lit "healthy"))]) in
  (some_available <-> health w = (inr healthy_body, w))
  /\ (~ some_available
      <-> health w = (inl (HTTPException 503 (lit "No healthy inference backends")), w))
  /\ response_status healthy_body = 200
  /\ w_sent (health w).2 = w_sent w
  /\ w_pool (health w).2 = w_pool w.
Proof.
  intros some_available healthy_body.
  pose proof (any_healthy_iff (w_pool w)) as Hiff. fold some_available in Hiff.
  unfold health, mbind, M_bind, get_pool, raise, mret, M_ret.
  destruct (any_healthy (w_pool w)); cbn.
  - assert some_available as Hs by by apply Hiff.
    split; [done|]. split; [|done]. split; [done|discriminate].
  - assert (~ some_available) as Hs by (intros Hs; by apply Hiff in Hs).
    split; [|done]. split; [done|discriminate].
Qed.

Lemma release_after_start (p : BackendPool) (i : nat) (b : Backend) :
  backends p !! i = Some b -> 0 <= active_requests b ->
  release_backend i (on_backend mark_request_start i p) = p.
Proof.
  intros Hl Hb. unfold release_backend, on_backend. cbn.
  rewrite list_alter_alter_eq, (alter_as_insert _ _ _ b Hl). cbn.
  rewrite mark_request_done_start by done. rewrite list_insert_id by done.
  by destruct p.
Qed.

(** C2: the two failures of the proxy handler. When no backend is available
    the handler raises 503 and leaves every counter, and the whole state,
    as it was: nothing is sent upstream. When a backend is picked and
    opening the upstream stream raises, the handler has sent that one
    request, has released the backend, and then raises 502 "Upstream request
    failed"; with counters that are not negative the pool, and so the picked
    backend's counter, is back at its value from before the call. *)
Theorem proxy_request_failures
    (request : Request) (client : stream_client) (mount_path : str) (w : world) :
  (Forall (fun b => is_available b = false) (backends (w_pool w)) ->
   _proxy_request request client mount_path w
   = (inl (HTTPException 503 (lit "No healthy inference backends available")), w))
  /\ (forall backend p' e,
        pick_backend (w_pool w) = inr (backend, p') ->
        aenter (client (proxy_stream_args request p' backend mount_path)) = inl e ->
        _proxy_request request client mount_path w
        = (inl (HTTPException 502 (lit "Upstream request failed")),
           mkWorld (release_backend backend p')
             (w_sent w ++ [proxy_stream_args request p' backend mount_path]))
        /\ (active_requests <$> backends p' !! backend)
           = ((fun b => active_requests b + 1) <$> backends (w_pool w) !! backend)
        /\ (Forall (fun b => 0 <= active_requests b) (backends (w_pool w)) ->
            release_backend backend p' = w_pool w)).
Proof.
  split.
  - intros Hna. unfold _proxy_request, mbind, M_bind, try_except, call_pool.
    by rewrite (pick_backend_raises _ Hna).
  - intros backend p' e Hpick Henter.
    destruct (pick_backend_chosen _ _ _ Hpick) as (b & Hl & Ha & _ & ->).
    split; [|split].
    + unfold _proxy_request, mbind, M_bind, try_except, call_pool, get_pool.
      rewrite Hpick. cbn [w_pool w_sent]. unfold enter at 1. cbn [w_pool w_sent].
      rewrite Henter. unfold suppress, try_except, leave, modify_pool, raise.
      cbn [w_pool w_sent]. by destruct (aexit _).
    + unfold on_backend. cbn. rewrite list_lookup_alter_eq, Hl. reflexivity.
    + intros Hnn. apply (release_after_start _ _ b Hl).
      rewrite Forall_lookup in Hnn. by eapply Hnn.
Qed.

Lemma proxy_request_failures_witness :
  let w := mkWorld (mkBackendPool sample_settings [serving "http://b1" 4]) [] in
  let sent := mkUpstreamRequest (lit "GET") (lit "http://b1/v1/models") [] []
                [] DEFAULT_REQUEST_TIMEOUT in
  _proxy_request sample_request unreachable_client [] w
  = (inl (HTTPException 502 (lit "Upstream request failed")),
     mkWorld (w_pool w) [sent])
  /\ _proxy_request sample_request unreachable_client []
       (mkWorld (new_BackendPool sample_settings) [])
     = (inl (HTTPException 503 (lit "No healthy inference backends available")),
        mkWorld (new_BackendPool sample_settings) []).
Proof.
  intros w sent. split.
  - destruct (proxy_request_failures sample_request unreachable_client [] w)
      as [_ H].
    destruct (H 0%nat (mkBackendPool sample_settings [serving "http://b1" 5])
                TransportError eq_refl eq_refl) as (-> & _ & _).
    reflexivity.
  - destruct (proxy_request_failures sample_request unreachable_client []
                (mkWorld (new_BackendPool sample_settings) [])) as [H _].
    apply H. repeat constructor.
Defined.

Lemma lifespan_pool f (env : environ) (w0 : world) :
  lifespan f env = inr w0 ->
  exists s, load f env = inr s /\ w0 = mkWorld (new_BackendPool s) [].
Proof.
  unfold lifespan, mbind, result_bind. destruct (load f env) as [e|s]; [done|].
  intros [= <-]. by exists s.
Qed.

(** What the two proxying handlers do once they hold a backend, read off
    the outcome of opening the stream and of building the response. *)
Lemma _proxy_request_run (request : Request) (client : stream_client)
    (mount_path : str) (w : world) (backend : nat) (p' : BackendPool) :
  pick_backend (w_pool w) = inr (backend, p') ->
  let context := proxy_stream_args request p' backend mount_path in
  let sent := w_sent w ++ [context] in
  let failed :=
    (inl (HTTPException 502 (lit "Upstream request failed")),
     mkWorld (release_backend backend p') sent) in
  _proxy_request request client mount_path w
  = match aenter (client context) with
    | inl _ => failed
    | inr upstream =>
        if headers_encode (filtered_headers upstream) then
          (inr (StreamingResponse (up_raw upstream) (up_status_code upstream)
                  (filtered_headers upstream)
                  (try_finally (leave client context)
                     (modify_pool (release_backend backend)))),
           mkWorld p' sent)
        else failed
    end.
Proof.
  intros Hpick context sent failed.
  unfold _proxy_request, mbind, M_bind, try_except, call_pool, get_pool.
  rewrite Hpick. cbn [w_pool w_sent]. fold context.
  unfold enter at 1. cbn [w_pool w_sent]. fold sent.
  destruct (aenter (client context)) as [e|upstream].
  - unfold suppress, try_except, leave, modify_pool, raise. cbn [w_pool w_sent].
    by destruct (aexit _).
  - unfold new_StreamingResponse.
    destruct (headers_encode (filtered_headers upstream)); [done|].
    unfold raise at 1.
    unfold suppress, try_except, leave, modify_pool, raise. cbn [w_pool w_sent].
    by destruct (aexit _).
Qed.

Lemma proxy_fallback_run (request : Request) (client : stream_client)
    (w : world) (first : Backend) :
  head (backends (w_pool w)) = Some first ->
  let context := fallback_stream_args request (w_pool w) first in
  let held := on_backend mark_request_start 0 (w_pool w) in
  let sent := w_sent w ++ [context] in
  let failed :=
    (inl (HTTPException 502 (lit "Upstream request failed")),
     mkWorld (on_backend mark_request_done 0 held) sent) in
  proxy_fallback request client w
  = match aenter (client context) with
    | inl _ => failed
    | inr upstream =>
        if headers_encode (filtered_headers upstream) then
          (inr (StreamingResponse (up_raw upstream) (up_status_code upstream)
                  (filtered_headers upstream)
                  (try_finally (leave client context)
                     (modify_pool (on_backend mark_request_done 0)))),
           mkWorld held sent)
        else failed
    end.
Proof.
  intros Hhead context held sent failed.
  unfold proxy_fallback, mbind, M_bind, get_pool, modify_pool at 1, try_except.
  rewrite Hhead. cbn [w_pool w_sent]. fold context held.
  unfold enter at 1. cbn [w_pool w_sent]. fold sent.
  destruct (aenter (client context)) as [e|upstream].
  - unfold suppress, try_except, leave, modify_pool, raise. cbn [w_pool w_sent].
    by destruct (aexit _).
  - unfold new_StreamingResponse.
    destruct (headers_encode (filtered_headers upstream)); [done|].
    unfold raise at 1.
    unfold suppress, try_except, leave, modify_pool, raise. cbn [w_pool w_sent].
    by destruct (aexit _).
Qed.

Lemma proxy_fallback_with_backend (request : Request) (client : stream_client)
    (w : world) (first : Backend) :
  head (backends (w_pool w)) = Some first ->
  (exists r w', proxy_fallback request client w = (inr r, w'))
  \/ (exists w', proxy_fallback request client w
                 = (inl (HTTPException 502 (lit "Upstream request failed")), w')).
Proof.
  intros Hhead. rewrite (proxy_fallback_run request client w first Hhead).
  destruct (aenter _) as [e|upstream]; [right; by eexists|].
  destruct (headers_encode _); [left; by eexists _, _|right; by eexists].
Qed.

(** C10: a pool built by [lifespan] from a [Settings] that [load] returned
    has one backend per configured URL and at least one of them. The list
    of backends of a pool never changes length, so whatever the monitors
    and handlers have done to the backends since, the fallback route finds
    a first backend and does not raise 503 "No MLNode backends configured". *)
Theorem fallback_never_lacks_a_backend
    (float_of_str : str -> option float) (env : environ) (w0 : world) :
  lifespan float_of_str env = inr w0 ->
  url <$> backends (w_pool w0) = backend_urls (pool_settings (w_pool w0))
  /\ backends (w_pool w0) <> []
  /\ forall (w : world) (request : Request) (client : stream_client),
       length (backends (w_pool w)) = length (backends (w_pool w0)) ->
       is_Some (backends (w_pool w) !! 0%nat)
       /\ (proxy_fallback request client w).1
          <> inl (HTTPException 503 (lit "No MLNode backends configured")).
Proof.
  intros Hlife. apply lifespan_pool in Hlife as (s & Hload & ->).
  apply load_backend_urls in Hload as [_ Hne]. cbn [w_pool].
  assert (backends (new_BackendPool s) <> []) as Hpool.
  { unfold new_BackendPool. cbn. by destruct (backend_urls s). }
  split; [|split; [done|]].
  - unfold new_BackendPool. cbn. rewrite <- list_fmap_compose.
    rewrite <- (list_fmap_id (backend_urls s)) at 2. by apply list_fmap_ext.
  - intros w request client Hlen.
    destruct (backends (w_pool w)) as [|first rest] eqn:Hbs.
    { destruct (backends (new_BackendPool s)); [done|discriminate]. }
    split; [by eexists|].
    destruct (proxy_fallback_with_backend request client w first) as
      [(r & w' & ->)|(w' & ->)]; [by rewrite Hbs|discriminate|discriminate].
Qed.

Lemma fallback_never_lacks_a_backend_witness :
  let w0 := mkWorld (new_BackendPool sample_settings) [] in
  lifespan (fun _ => None) (backends_env "http://b1") = inr w0
  /\ (proxy_fallback sample_request unreachable_client w0).1
     = inl (HTTPException 502 (lit "Upstream request failed"))
  /\ is_Some (backends (w_pool w0) !! 0%nat).
Proof.
  intros w0.
  assert (lifespan (fun _ => None) (backends_env "http://b1") = inr w0) as Hlife
    by reflexivity.
  destruct (fallback_never_lacks_a_backend (fun _ => None) (backends_env "http://b1")
              w0 Hlife) as (_ & _ & H).
  destruct (H w0 sample_request unreachable_client eq_refl) as [Hsome _].
  split; [exact Hlife|]. split; [reflexivity|exact Hsome].
Defined.

(** * Further properties of the package *)

(** ** Counters over a sequence of calls *)

Lemma apply_op_same_but_counter (b : Backend) (o : counter_op) :
  same_but_counter b (apply_op b o).
Proof.
  destruct o; cbn; [done|]. unfold mark_request_done.
  by destruct (0 <? active_requests b).
Qed.

Lemma count_ops_cons (o o' : counter_op) (ops : list counter_op) :
  count_ops o (o' :: ops)
  = (match o, o' with Start, Start | Done, Done => 1 | _, _ => 0 end) + count_ops o ops.
Proof. unfold count_ops. destruct o, o'; cbn [List.filter length]; lia. Qed.

Lemma count_ops_nonneg (o : counter_op) (ops : list counter_op) : 0 <= count_ops o ops.
Proof. unfold count_ops. lia. Qed.

(** X1: the counter after a sequence of calls. It is never less than the
    start value plus the number of [mark_request_start] minus the number of
    [mark_request_done]; when the start value is at least the number of
    [mark_request_done] calls no call is clamped and it is exactly that.
    The calls touch nothing but the counter. *)
Theorem counter_after_calls (b : Backend) (ops : list counter_op) :
  count_ops Done ops <= active_requests b ->
  active_requests (fold_left apply_op ops b)
  = active_requests b + count_ops Start ops - count_ops Done ops
  /\ same_but_counter b (fold_left apply_op ops b)
  /\ (forall b0 : Backend,
        active_requests b0 + count_ops Start ops - count_ops Done ops
        <= active_requests (fold_left apply_op ops b0)).
Proof.
  intros Hd. split; [|split].
  - revert b Hd. induction ops as [|o ops IH]; intros b Hd; cbn [fold_left].
    + unfold count_ops. cbn. lia.
    + rewrite !count_ops_cons in *. pose proof (count_ops_nonneg Done ops).
      destruct o; cbn [apply_op].
      * rewrite IH; cbn; lia.
      * unfold mark_request_done.
        destruct (Z.ltb_spec 0 (active_requests b)); [|lia].
        rewrite IH; cbn; lia.
  - clear Hd. revert b. induction ops as [|o ops IH]; intros b; cbn [fold_left]; [done|].
    destruct (apply_op_same_but_counter b o) as (H1 & H2 & H3 & H4).
    destruct (IH (apply_op b o)) as (I1 & I2 & I3 & I4).
    unfold same_but_counter. by rewrite I1, I2, I3, I4.
  - clear Hd. induction ops as [|o ops IH]; intros b0; cbn [fold_left].
    + unfold count_ops. cbn. lia.
    + rewrite !count_ops_cons. specialize (IH (apply_op b0 o)).
      destruct o; cbn [apply_op] in *.
      * cbn in IH. lia.
      * unfold mark_request_done in *.
        destruct (Z.ltb_spec 0 (active_requests b0)); cbn in IH; lia.
Qed.

Lemma counter_after_calls_witness :
  active_requests
    (fold_left apply_op [Start; Done; Start; Start; Done] (serving "http://b1" 2)) = 3.
Proof.
  destruct (counter_after_calls (serving "http://b1" 2) [Start; Done; Start; Start; Done])
    as (H & _).
  - unfold count_ops. cbn. lia.
  - exact H.
Defined.

(** ** What selection and release leave alone *)

Lemma same_but_counter_available (b b' : Backend) :
  same_but_counter b b' -> is_available b' = is_available b.
Proof. intros (_ & _ & Hs & Hh). unfold is_available. by rewrite Hs, Hh. Qed.

Lemma mark_request_start_same (b : Backend) : same_but_counter b (mark_request_start b).
Proof. exact (apply_op_same_but_counter b Start). Qed.

Lemma mark_request_done_same (b : Backend) : same_but_counter b (mark_request_done b).
Proof. exact (apply_op_same_but_counter b Done). Qed.

Lemma on_backend_same (f : Backend -> Backend) (i : nat) (p : BackendPool) :
  (forall b, same_but_counter b (f b)) ->
  Forall2 same_but_counter (backends p) (backends (on_backend f i p)).
Proof.
  intros Hf. unfold on_backend. cbn. apply Forall2_alter_r.
  - apply Forall_Forall2_diag, Forall_forall. by intros b _.
  - intros x y _ _ (H1 & H2 & H3 & H4). destruct (Hf y) as (F1 & F2 & F3 & F4).
    unfold same_but_counter. by rewrite F1, F2, F3, F4.
Qed.

Lemma same_but_counter_views (bs bs' : list Backend) :
  Forall2 same_but_counter bs bs' ->
  existsb is_available bs' = existsb is_available bs
  /\ state <$> List.filter (fun b => truthy (state b)) bs'
     = state <$> List.filter (fun b => truthy (state b)) bs
  /\ url <$> bs' = url <$> bs
  /\ length bs' = length bs.
Proof.
  induction 1 as [|b b' bs bs' Hb _ (IH1 & IH2 & IH3 & IH4)]; [done|].
  pose proof (same_but_counter_available _ _ Hb) as Ha.
  destruct Hb as (Hu & _ & Hs & _). cbn.
  rewrite Ha, IH1, Hu, IH3, IH4, Hs. repeat split; try done.
  destruct (truthy (state b)); cbn; by rewrite ?Hs, IH2.
Qed.

Lemma on_backend_out_of_range (f : Backend -> Backend) (i : nat) (p : BackendPool) :
  (length (backends p) <= i)%nat -> on_backend f i p = p.
Proof.
  intros Hi. unfold on_backend. destruct p as [s bs]. cbn in *. f_equal.
  apply list_eq. intros j. rewrite list_lookup_alter. case_decide; [subst|done].
  by rewrite (lookup_ge_None_2 bs j).
Qed.

(** X2: [pick_backend] and [release_backend] change one counter and nothing
    else. After either, every backend has the url, settings, state and
    health flag it had, every backend but the one named has its counter,
    and so [any_healthy] and [aggregate_state] answer as before. A release
    of a backend that is not in the pool changes nothing. *)
Theorem selection_changes_one_counter (p : BackendPool) (i : nat) :
  (forall p', pick_backend p = inr (i, p') ->
     Forall2 same_but_counter (backends p) (backends p')
     /\ (forall j, j <> i -> backends p' !! j = backends p !! j)
     /\ pool_settings p' = pool_settings p
     /\ any_healthy p' = any_healthy p
     /\ aggregate_state p' = aggregate_state p)
  /\ Forall2 same_but_counter (backends p) (backends (release_backend i p))
  /\ (forall j, j <> i -> backends (release_backend i p) !! j = backends p !! j)
  /\ any_healthy (release_backend i p) = any_healthy p
  /\ aggregate_state (release_backend i p) = aggregate_state p
  /\ ((length (backends p) <= i)%nat -> release_backend i p = p).
Proof.
  assert (forall f, (forall b, same_but_counter b (f b)) ->
            Forall2 same_but_counter (backends p) (backends (on_backend f i p))
            /\ (forall j, j <> i -> backends (on_backend f i p) !! j = backends p !! j)
            /\ any_healthy (on_backend f i p) = any_healthy p
            /\ aggregate_state (on_backend f i p) = aggregate_state p) as Hframe.
  { intros f Hf. pose proof (on_backend_same f i p Hf) as Hsame.
    destruct (same_but_counter_views _ _ Hsame) as (H1 & H2 & _ & _).
    split; [done|]. split; [|split].
    - intros j Hj. unfold on_backend. cbn. by apply list_lookup_alter_ne.
    - exact H1.
    - unfold aggregate_state. by rewrite H2. }
  split.
  - intros p' Hpick. apply pick_backend_chosen in Hpick as (b & _ & _ & _ & ->).
    destruct (Hframe _ mark_request_start_same) as (H1 & H2 & H3 & H4). done.
  - destruct (Hframe _ mark_request_done_same) as (H1 & H2 & H3 & H4).
    unfold release_backend. repeat split; try done.
    apply on_backend_out_of_range.
Qed.

Lemma selection_changes_one_counter_witness :
  let p := mkBackendPool sample_settings [serving "http://b1" 3; serving "http://b2" 1] in
  exists p', pick_backend p = inr (1%nat, p')
             /\ backends p' !! 0%nat = Some (serving "http://b1" 3)
             /\ any_healthy p' = true.
Proof.
  intros p. destruct (selection_changes_one_counter p 1) as (H & _).
  eexists. split; [reflexivity|].
  destruct (H _ eq_refl) as (_ & Hother & _ & Hany & _).
  split; [by rewrite Hother|]. by rewrite Hany.
Defined.

(** ** Balance *)

Lemma pick_backend_keeps_balance (p p' : BackendPool) (i : nat) :
  balanced p -> pick_backend p = inr (i, p') -> balanced p'.
Proof.
  intros Hbal Hpick.
  destruct (pick_backend_chosen _ _ _ Hpick) as (c & Hc & Hca & Hmin & ->).
  assert (forall b, b ∈ backends (on_backend mark_request_start i p) ->
            is_available b = true ->
            (b = mark_request_start c)
            \/ (b ∈ backends p /\ active_requests c <= active_requests b)) as Hcases.
  { intros b Hb Ha. apply list_elem_of_lookup in Hb as [j Hj].
    unfold on_backend in Hj. cbn in Hj. rewrite list_lookup_alter in Hj.
    case_decide as Hij.
    - left. rewrite Hc in Hj. by inversion Hj.
    - right. split; [by eapply list_elem_of_lookup_2|]. by apply (Hmin j b). }
  assert (c ∈ backends p) as Hcin by by eapply list_elem_of_lookup_2.
  intros b b' Hb Hb' Ha Ha'.
  destruct (Hcases b Hb Ha) as [->|[Hbin Hbc]],
           (Hcases b' Hb' Ha') as [->|[Hbin' Hbc']]; cbn.
  - lia.
  - lia.
  - specialize (Hbal b c Hbin Hcin Ha Hca). lia.
  - by apply Hbal.
Qed.

Lemma equal_loads_balanced (p : BackendPool) (k : Z) :
  Forall (fun b => active_requests b = k) (backends p) -> balanced p.
Proof.
  intros Hk b b' Hb Hb' _ _. rewrite Forall_forall in Hk.
  rewrite (Hk b Hb), (Hk b' Hb'). lia.
Qed.

(** X3: least-loaded selection keeps the load even. If the loads of the
    available backends differ by at most one, as they do when all backends
    start from the same load, they still do after any number of
    [pick_backend] calls, and the pool is as available as before. *)
Theorem pick_times_keeps_balance (n : nat) (p p' : BackendPool) :
  balanced p -> pick_times n p = inr p' ->
  balanced p' /\ any_healthy p' = any_healthy p.
Proof.
  intros Hbal Hn. split.
  - revert p Hbal Hn. induction n as [|n IH]; intros p Hbal; cbn.
    + by intros [= <-].
    + destruct (pick_backend p) as [e|[i q]] eqn:Hpick; [done|].
      intros Hn. apply (IH q); [|done]. by eapply pick_backend_keeps_balance.
  - clear Hbal. revert p Hn. induction n as [|n IH]; intros p; cbn.
    + by intros [= <-].
    + destruct (pick_backend p) as [e|[i q]] eqn:Hpick; [done|].
      intros Hn. rewrite (IH q Hn).
      apply pick_backend_chosen in Hpick as (b & _ & _ & _ & ->).
      pose proof (on_backend_same _ i p mark_request_start_same) as Hsame.
      by destruct (same_but_counter_views _ _ Hsame) as (H1 & _).
Qed.

Lemma pick_times_keeps_balance_witness :
  let p := mkBackendPool sample_settings
             [serving "http://b1" 0; serving "http://b2" 0; serving "http://b3" 0] in
  exists p', pick_times 7 p = inr p'
             /\ active_requests <$> backends p' = [3; 2; 2]
             /\ balanced p'.
Proof.
  intros p. eexists. split; [reflexivity|]. split; [reflexivity|].
  eapply (pick_times_keeps_balance 7 p); [|reflexivity].
  apply (equal_loads_balanced p 0). by repeat constructor.
Defined.

(** ** The health route and the proxy agree *)

Lemma any_healthy_false (p : BackendPool) :
  any_healthy p = false <-> Forall (fun b => is_available b = false) (backends p).
Proof.
  unfold any_healthy. rewrite Forall_forall. split.
  - intros Hno b Hb. destruct (is_available b) eqn:Ha; [|done].
    rewrite <- Hno. symmetry. apply existsb_exists. exists b.
    split; [by apply list_elem_of_In|done].
  - intros Hall. apply not_true_iff_false. rewrite existsb_exists.
    intros (b & Hb & Ha). apply list_elem_of_In in Hb. specialize (Hall b Hb). congruence.
Qed.

Lemma any_healthy_picks (p : BackendPool) :
  any_healthy p = true <-> exists i p', pick_backend p = inr (i, p').
Proof.
  split.
  - intros Hany. destruct (pick_backend p) as [e|[i p']] eqn:Hpick; [|by eauto].
    apply pick_backend_raised in Hpick as [_ Hna]. apply any_healthy_false in Hna. congruence.
  - intros (i & p' & Hpick). destruct (any_healthy p) eqn:Hany; [done|].
    apply any_healthy_false, pick_backend_raises in Hany. congruence.
Qed.

Lemma _proxy_request_with_backend (request : Request) (client : stream_client)
    (mount_path : str) (w : world) (i : nat) (p' : BackendPool) :
  pick_backend (w_pool w) = inr (i, p') ->
  (exists r w', _proxy_request request client mount_path w = (inr r, w'))
  \/ (exists w', _proxy_request request client mount_path w
                 = (inl (HTTPException 502 (lit "Upstream request failed")), w')).
Proof.
  intros Hpick. rewrite (_proxy_request_run request client mount_path w i p' Hpick).
  destruct (aenter _) as [e|upstream]; [right; by eexists|].
  destruct (headers_encode _); [left; by eexists _, _|right; by eexists].
Qed.

(** X4: [/health] and the proxy look at the pool the same way. [any_healthy]
    is true exactly when [pick_backend] would succeed, so [/health] raises
    its 503 exactly when a proxied request made in the same state would be
    turned away with 503 (the two details differ in wording), and answers
    200 exactly when the request would get a backend. *)
Theorem health_agrees_with_proxy
    (request : Request) (client : stream_client) (mount_path : str) (w : world) :
  (any_healthy (w_pool w) = true <-> exists i p', pick_backend (w_pool w) = inr (i, p'))
  /\ ((health w).1 = inl (HTTPException 503 (lit "No healthy inference backends"))
      <-> (_proxy_request request client mount_path w).1
          = inl (HTTPException 503 (lit "No healthy inference backends available")))
  /\ ((exists r, (health w).1 = inr r)
      <-> exists i p', pick_backend (w_pool w) = inr (i, p')).
Proof.
  pose proof (any_healthy_picks (w_pool w)) as Hpicks.
  split; [done|].
  unfold health, mbind, M_bind, get_pool, raise, mret, M_ret.
  destruct (any_healthy (w_pool w)) eqn:Hany; cbn [negb fst].
  - destruct (proj1 Hpicks eq_refl) as (i & p' & Hpick). split.
    + split; [done|]. intros H503.
      destruct (_proxy_request_with_backend request client mount_path w i p' Hpick)
        as [(r & w' & Heq)|(w' & Heq)]; rewrite Heq in H503; discriminate.
    + split; [by eauto|by eauto].
  - split.
    + split; [|done]. intros _.
      unfold _proxy_request, mbind, M_bind, try_except, call_pool.
      by rewrite (pick_backend_raises _ (proj1 (any_healthy_false _) Hany)).
    + split; [by intros [r Hr]|]. intros Hex. apply Hpicks in Hex. discriminate.
Qed.

(** ** Aggregate state and availability *)

Lemma known_states_fmap (bs : list Backend) :
  state <$> List.filter (fun b => truthy (state b)) bs
  = List.filter truthy (state <$> bs).
Proof.
  induction bs as [|b bs IH]; [done|]. cbn.
  destruct (truthy (state b)); cbn; by rewrite IH.
Qed.

Lemma inference_in_priority : lit "INFERENCE" ∈ priority.
Proof. unfold priority. left. Qed.

(** X5: the aggregate state is "INFERENCE" exactly when some backend
    reports "INFERENCE", healthy or not. So a pool in which [any_healthy]
    holds always shows "INFERENCE", and the aggregate depends on nothing
    but the backends' states. *)
Theorem aggregate_state_inference (p : BackendPool) :
  (aggregate_state p = lit "INFERENCE" <-> reports p (lit "INFERENCE"))
  /\ (any_healthy p = true -> aggregate_state p = lit "INFERENCE")
  /\ (forall p', state <$> backends p' = state <$> backends p ->
                 aggregate_state p' = aggregate_state p).
Proof.
  assert (aggregate_state p = lit "INFERENCE" <-> reports p (lit "INFERENCE")) as Hiff.
  { rewrite <- (str_in_reports p _ inference_in_priority).
    unfold aggregate_state, priority. cbn [first_in].
    destruct (str_in (lit "INFERENCE") _); [done|].
    destruct (str_in (lit "POW") _); [split; discriminate|].
    destruct (str_in (lit "TRAIN") _); [split; discriminate|].
    destruct (str_in (lit "STOPPED") _); split; discriminate. }
  split; [done|]. split.
  - intros Hany. apply Hiff. apply any_healthy_iff in Hany as (b & Hb & _ & Hs).
    by exists b.
  - intros p' Hst. unfold aggregate_state. by rewrite !known_states_fmap, Hst.
Qed.

Lemma aggregate_state_inference_witness :
  let p := mkBackendPool sample_settings
             [mkBackend (lit "http://b1") sample_settings (VStr (lit "POW")) true 0;
              serving "http://b2" 0] in
  any_healthy p = true /\ aggregate_state p = lit "INFERENCE".
Proof.
  intros p. destruct (aggregate_state_inference p) as (_ & H & _).
  split; [reflexivity|]. by apply H.
Defined.

(** ** More on the monitor *)

Lemma state_of_raises (v : value) (e : exn) :
  state_of v = inl e <-> e = AttributeError /\ truthy v = true /\ forall d, v <> VDict d.
Proof.
  unfold state_of. destruct (truthy v) eqn:Ht.
  - destruct v; cbn in Ht; try discriminate; split;
      try (intros [= <-]; by repeat split);
      try (by intros (-> & _ & _));
      try done.
    intros (_ & _ & Hd). by destruct (Hd d).
  - split; [done|]. by intros (_ & ? & _).
Qed.

Lemma _fetch_json_truthy (client : http_client) (u : str) (t : float) (v : value) :
  truthy v = true ->
  _fetch_json client u t = inr v <-> client u t = GetResponse 200 (inr v).
Proof.
  intros Ht. rewrite _fetch_json_cases. destruct (client u t) as [|c json].
  - split; [|done]. intros [= <-]. discriminate.
  - destruct (Z.eqb_spec c 200) as [->|Hc].
    + destruct json as [e|v'].
      * destruct (is_ValueError e); split; try done. intros [= <-]. discriminate.
      * split; [by intros [= ->]|by intros [= ->]].
    + split; [intros [= <-]; discriminate|]. intros [= ? ?]. done.
Qed.

Lemma _fetch_json_raises (client : http_client) (u : str) (t : float) (e : exn) :
  _fetch_json client u t = inl e
  <-> client u t = GetResponse 200 (inl e) /\ is_ValueError e = false.
Proof.
  rewrite _fetch_json_cases. destruct (client u t) as [|c json].
  - split; [done|]. by intros [? _].
  - destruct (Z.eqb_spec c 200) as [->|Hc].
    + destruct json as [e'|v].
      * destruct (is_ValueError e') eqn:He'.
        -- split; [done|]. intros [[= <-] He]. congruence.
        -- split; [by intros [= <-]|by intros [[= <-] _]].
      * split; [done|]. by intros [? _].
    + split; [done|]. intros [[= ? ?] _]. done.
Qed.

(** X7: the ways a turn of the monitor raises. It raises in two cases only,
    both with a state poll that answered 200, and both before it has
    written anything: with the exception of [response.json()] when that is
    not a [ValueError], and with [AttributeError] when the decoded JSON is
    true in the Python sense but is not an object (a non-empty list or
    string, a non-zero number, [true]). A 200 answer whose JSON is false in
    that sense ([null], [false], 0, "", an empty list or object) gives state
    [None] like a failed poll. *)
Theorem monitor_iteration_raises (client : http_client) (backend : Backend) :
  let state_poll :=
    client (url backend ++ lit "/api/v1/state") (state_timeout (settings backend)) in
  (forall e, monitor_iteration client backend = inl e
             <-> (state_poll = GetResponse 200 (inl e) /\ is_ValueError e = false)
                 \/ (e = AttributeError
                     /\ exists v, state_poll = GetResponse 200 (inr v)
                                  /\ truthy v = true /\ forall d, v <> VDict d))
  /\ (forall v, state_poll = GetResponse 200 (inr v) -> truthy v = false ->
        exists b', monitor_iteration client backend = inr b' /\ state b' = VNone).
Proof.
  intros state_poll. split.
  - intros e. rewrite monitor_iteration_unfold.
    destruct (_fetch_json _ _ _) as [e'|state_data] eqn:Hfetch.
    + apply _fetch_json_raises in Hfetch as [Hpoll He']. fold state_poll in Hpoll.
      split.
      * intros [= <-]. by left.
      * intros [[Hpoll' _]|(-> & v & Hpoll' & _)]; congruence.
    + destruct (state_of state_data) as [e'|s] eqn:Hs.
      * apply state_of_raises in Hs as (-> & Ht & Hd). split.
        -- intros [= <-]. right. split; [done|]. exists state_data. split; [|done].
           by apply (_fetch_json_truthy client _ _ _ Ht).
        -- intros [[Hpoll _]|(-> & _)]; [|done].
           apply (_fetch_json_truthy client _ _ _ Ht) in Hfetch.
           fold state_poll in Hfetch. congruence.
      * split; [done|]. intros [[Hpoll He]|(-> & v & Hpoll & Ht & Hd)]; exfalso.
        -- assert (_fetch_json client (url backend ++ lit "/api/v1/state")
                     (state_timeout (settings backend)) = inl e) as Hr
             by by apply _fetch_json_raises.
           congruence.
        -- apply (_fetch_json_truthy client _ _ _ Ht) in Hpoll.
           assert (state_of v = inl AttributeError) as Hr by by apply state_of_raises.
           congruence.
  - intros v Hpoll Ht. rewrite monitor_iteration_unfold, _fetch_json_cases.
    fold state_poll. rewrite Hpoll. cbn. unfold state_of. rewrite Ht.
    by eexists.
Qed.

Lemma monitor_iteration_raises_witness :
  monitor_iteration list_http_client (serving "http://b1" 2) = inl AttributeError.
Proof.
  destruct (monitor_iteration_raises list_http_client (serving "http://b1" 2)) as [H _].
  apply H. right. split; [done|]. eexists. split; [reflexivity|]. split; [reflexivity|].
  intros d. discriminate.
Defined.

Lemma state_of_inference (v : value) :
  state_of v = inr (VStr (lit "INFERENCE"))
  <-> exists d, v = VDict d /\ dict_get d (lit "state") = VStr (lit "INFERENCE").
Proof.
  split.
  - unfold state_of. destruct (truthy v) eqn:Ht; [|discriminate].
    destruct v; try discriminate. intros [= Hd]. by exists d.
  - intros (d & -> & Hd). rewrite state_of_dict. by rewrite Hd.
Qed.

(** X8: what a turn of the monitor makes of a backend. The turn keeps the
    url, the settings and the counter, and what it writes does not depend
    on the state and health flag the backend had: the last poll wins. After
    the turn the backend is available exactly when the state poll answered
    200 with an object whose "state" is "INFERENCE" and the health poll
    answered 200. *)
Theorem monitor_iteration_availability
    (client : http_client) (backend b' : Backend) :
  monitor_iteration client backend = inr b' ->
  let state_poll :=
    client (url backend ++ lit "/api/v1/state") (state_timeout (settings backend)) in
  let health_poll :=
    client (url backend ++ lit "/health") (health_timeout (settings backend)) in
  url b' = url backend /\ settings b' = settings backend
  /\ active_requests b' = active_requests backend
  /\ (forall s h, monitor_iteration client (set_state s (set_healthy h backend)) = inr b')
  /\ (is_available b' = true
      <-> (exists d, state_poll = GetResponse 200 (inr (VDict d))
                     /\ dict_get d (lit "state") = VStr (lit "INFERENCE"))
          /\ exists body, health_poll = GetResponse 200 body).
Proof.
  rewrite monitor_iteration_unfold.
  destruct (_fetch_json _ _ _) as [e|state_data] eqn:Hfetch; [done|].
  destruct (state_of state_data) as [e|s] eqn:Hs; [done|]. intros [= <-].
  intros state_poll health_poll. cbn [url settings active_requests].
  split; [done|]. split; [done|]. split; [done|]. split.
  - intros s0 h0. rewrite monitor_iteration_unfold. cbn [url settings set_state set_healthy
      active_requests]. by rewrite Hfetch, Hs.
  - rewrite is_available_iff. cbn [healthy state].
    rewrite _fetch_status_true. fold health_poll.
    assert (s = VStr (lit "INFERENCE")
            <-> exists d, state_poll = GetResponse 200 (inr (VDict d))
                          /\ dict_get d (lit "state") = VStr (lit "INFERENCE")) as Hst.
    { split.
      - intros ->. apply state_of_inference in Hs as (d & -> & Hd).
        exists d. split; [|done].
        assert (truthy (VDict d) = true) as Ht by (destruct d; [discriminate Hd|done]).
        by apply (_fetch_json_truthy client _ _ _ Ht).
      - intros (d & Hpoll & Hd).
        assert (truthy (VDict d) = true) as Ht by (destruct d; [discriminate Hd|done]).
        apply (_fetch_json_truthy client _ _ _ Ht) in Hpoll.
        rewrite Hpoll in Hfetch. inversion Hfetch; subst.
        rewrite state_of_dict, Hd in Hs. by inversion Hs. }
    rewrite Hst. tauto.
Qed.

Lemma monitor_iteration_availability_witness :
  exists b',
    monitor_iteration inference_http_client (new_Backend (lit "http://b1") sample_settings)
    = inr b' /\ is_available b' = true.
Proof.
  eexists. split; [reflexivity|].
  eapply (monitor_iteration_availability inference_http_client
            (new_Backend (lit "http://b1") sample_settings)); [reflexivity|].
  split; [|by exists (inl ValueError)]. eexists. split; reflexivity.
Defined.

(** ** More on the settings *)

Lemma split_chars (sep : N) (s w : str) (c : N) :
  w ∈ split sep s -> c ∈ w -> c ∈ s.
Proof.
  revert w. induction s as [|a s IH]; intros w; cbn.
  - rewrite elem_of_cons, elem_of_nil. intros [->|[]] Hc. by apply elem_of_nil in Hc.
  - destruct (N.eqb_spec a sep) as [->|Hne].
    + rewrite elem_of_cons. intros [->|Hw] Hc; [by apply elem_of_nil in Hc|].
      right. by apply (IH w).
    + pose proof (split_nonempty sep s) as Hn.
      destruct (split sep s) as [|w0 ws]; [done|].
      rewrite elem_of_cons. intros [->|Hw] Hc.
      * apply elem_of_cons in Hc as [->|Hc]; [left|]. right. apply (IH w0); [left|done].
      * right. apply (IH w); [by right|done].
Qed.

Lemma join_chars (sep : N) (ws : list str) (c : N) :
  c ∈ join sep ws -> c = sep \/ exists w, w ∈ ws /\ c ∈ w.
Proof.
  induction ws as [|w ws IH]; [by intros ?%elem_of_nil|].
  destruct ws as [|w' ws].
  - cbn. intros Hc. right. exists w. split; [left|done].
  - rewrite join_cons by done. rewrite elem_of_app, elem_of_cons.
    intros [Hc|[->|Hc]].
    + right. exists w. split; [left|done].
    + by left.
    + destruct (IH Hc) as [->|(w0 & Hw0 & Hc0)]; [by left|].
      right. exists w0. split; [by right|done].
Qed.

Lemma lstrip_by_all (f : N -> bool) (s : str) :
  Forall (fun c => f c = true) s -> lstrip_by f s = [].
Proof. induction 1 as [|c s Hc _ IH]; cbn; [done|]. by rewrite Hc. Qed.

Lemma strip_blank (s : str) : strip s = [] <-> Forall (fun c => isspace c = true) s.
Proof.
  split.
  - intros Hs. destruct (strip_trimmed s) as (l & r & Heq & Hl & Hr & _).
    rewrite Hs in Heq. rewrite Heq. cbn. by apply Forall_app.
  - intros Hall. unfold strip, rstrip_by. by rewrite (lstrip_by_all _ _ Hall).
Qed.

Lemma parse_backends_nil (raw : str) :
  parse_backends raw = [] <-> Forall (fun c => isspace c = true \/ c = 44%N) raw.
Proof.
  unfold parse_backends.
  assert (forall l : list str,
            (fun b => rstrip (lit "/") (strip b)) <$> l = [] <-> l = []) as ->
    by (intros l; split; [apply fmap_nil_inv|by intros ->]).
  split.
  - intros Hnil. apply Forall_forall. intros c Hc.
    rewrite <- (join_split 44 raw) in Hc.
    apply join_chars in Hc as [->|(w & Hw & Hcw)]; [by right|]. left.
    assert (strip w = []) as Hblank.
    { destruct (decide (strip w = [])) as [|Hne]; [done|exfalso].
      assert (In w (List.filter (fun b => negb (bool_decide (strip b = []))) (split 44 raw)))
        as Hin.
      { apply filter_In. split; [by apply list_elem_of_In|].
        by rewrite bool_decide_eq_false_2. }
      by rewrite Hnil in Hin. }
    apply strip_blank in Hblank. rewrite Forall_forall in Hblank. by apply Hblank.
  - intros Hall. rewrite Forall_forall in Hall.
    destruct (List.filter _ (split 44 raw)) as [|w ws] eqn:Hf; [done|exfalso].
    assert (In w (List.filter (fun b => negb (bool_decide (strip b = []))) (split 44 raw)))
      as Hin by (rewrite Hf; by left).
    apply filter_In in Hin as [Hw Hne]. apply list_elem_of_In in Hw.
    apply negb_true_iff, bool_decide_eq_false in Hne. apply Hne, strip_blank.
    apply Forall_forall. intros c Hc.
    destruct (Hall c (split_chars 44 raw w c Hw Hc)) as [Hsp|Hcomma]; [done|subst c].
    pose proof (split_no_sep 44 raw) as Hsep. rewrite Forall_forall in Hsep.
    by destruct (Hsep w Hw).
Qed.

(** X9: [load] raises the error about [MLNODE_BACKENDS] exactly when the
    variable is unset or holds nothing but whitespace and commas. That check
    comes first: in that case the float variables are not looked at. *)
Theorem load_rejects_blank_backends
    (float_of_str : str -> option float) (env : environ) :
  (load float_of_str env = inl no_backends_error
   <-> Forall (fun c => isspace c = true \/ c = 44%N)
         (default [] (env (lit "MLNODE_BACKENDS"))))
  /\ (env (lit "MLNODE_BACKENDS") = None -> load float_of_str env = inl no_backends_error).
Proof.
  assert (Forall (fun c => isspace c = true \/ c = 44%N)
            (default [] (env (lit "MLNODE_BACKENDS")))
          -> load float_of_str env = inl no_backends_error) as Hblank.
  { intros Hall. apply parse_backends_nil in Hall. rewrite load_unfold.
    by rewrite bool_decide_eq_true_2. }
  split; [split; [|done]|].
  - intros Hload. apply parse_backends_nil.
    destruct (decide (parse_backends (default [] (env (lit "MLNODE_BACKENDS"))) = []))
      as [|Hne]; [done|exfalso].
    rewrite load_unfold in Hload. rewrite bool_decide_eq_false_2 in Hload by done.
    destruct (_float_env float_of_str env (lit "MLNODE_REFRESH_INTERVAL") _) eqn:E1;
      [apply _float_env_message in E1; congruence|].
    destruct (_float_env float_of_str env (lit "MLNODE_REQUEST_TIMEOUT") _) eqn:E2;
      [apply _float_env_message in E2; congruence|].
    destruct (_float_env float_of_str env (lit "MLNODE_STATE_TIMEOUT") _) eqn:E3;
      [apply _float_env_message in E3; congruence|].
    destruct (_float_env float_of_str env (lit "MLNODE_HEALTH_TIMEOUT") _) eqn:E4;
      [apply _float_env_message in E4; congruence|].
    discriminate.
  - intros Hnone. apply Hblank. rewrite Hnone. constructor.
Qed.

Lemma load_rejects_blank_backends_witness :
  load (fun _ => None) (backends_env " , ,,  ") = inl no_backends_error.
Proof.
  destruct (load_rejects_blank_backends (fun _ => None) (backends_env " , ,,  "))
    as [[_ H] _].
  apply H. cbn. repeat (constructor; [first [by left|by right]|]). constructor.
Defined.

Lemma trimmed_chars (left right : N -> bool) (s t : str) (c : N) :
  trimmed left right s t -> c ∈ t -> c ∈ s.
Proof.
  intros (l & r & -> & _) Hc. apply elem_of_app. right. apply elem_of_app. by left.
Qed.

(** X10: the shape of the URLs that [load] hands out. None ends with "/",
    none contains a comma, and none starts with whitespace; there are at
    most as many as [MLNODE_BACKENDS] has comma-separated pieces, in the
    order of those pieces. *)
Theorem loaded_backend_urls_shape
    (float_of_str : str -> option float) (env : environ) (s : Settings) :
  load float_of_str env = inr s ->
  Forall (fun u => last u <> Some 47%N
                   /\ (44%N ∉ u)
                   /\ forall c, head u = Some c -> isspace c = false)
    (backend_urls s)
  /\ (length (backend_urls s)
      <= length (split 44 (default [] (env (lit "MLNODE_BACKENDS")))))%nat
  /\ (0 < length (backend_urls s))%nat.
Proof.
  intros Hload. apply load_backend_urls in Hload as [-> Hne].
  set (raw := default [] (env (lit "MLNODE_BACKENDS"))) in *.
  split; [|split].
  - unfold parse_backends. apply Forall_fmap, Forall_forall. intros piece Hin.
    unfold compose. apply list_elem_of_In, filter_In in Hin as [Hin _]. apply list_elem_of_In in Hin.
    destruct (rstrip_trimmed (lit "/") (strip piece)) as (l & r & Heq & _ & _ & _ & Hlast).
    destruct (strip_trimmed piece) as (l' & r' & Heq' & _ & _ & Hhead & _).
    split; [|split].
    + intros Hl. specialize (Hlast _ Hl). apply bool_decide_eq_false in Hlast.
      apply Hlast. change (lit "/") with [47%N]. left.
    + intros Hc. pose proof (split_no_sep 44 raw) as Hsep.
      rewrite Forall_forall in Hsep. apply (Hsep piece Hin).
      eapply trimmed_chars; [apply strip_trimmed|].
      eapply trimmed_chars; [apply rstrip_trimmed|done].
    + intros c Hc. apply Hhead.
      destruct (rstrip_by_spec (fun c => bool_decide (c ∈ lit "/")) (strip piece))
        as (r0 & Hs & _).
      rewrite Hs. unfold rstrip in Hc. rewrite head_app. by rewrite Hc.
  - unfold parse_backends. rewrite length_fmap. apply filter_length_le.
  - destruct (parse_backends raw); [done|cbn; lia].
Qed.

Lemma loaded_backend_urls_shape_witness :
  exists s,
    load (fun _ => None) (backends_env " http://b1// , /api/ ,") = inr s
    /\ backend_urls s = [lit "http://b1"; lit "/api"]
    /\ Forall (fun u => last u <> Some 47%N) (backend_urls s).
Proof.
  eexists. split; [reflexivity|]. split; [reflexivity|].
  destruct (loaded_backend_urls_shape (fun _ => None)
              (backends_env " http://b1// , /api/ ,") _ eq_refl) as (H & _).
  eapply Forall_impl; [exact H|]. by intros u (? & _).
Defined.

Lemma _float_env_good f (env : environ) (name : str) (d : float) :
  (forall v, env name = Some v -> f v <> None) ->
  exists x, _float_env f env name d = inr x.
Proof.
  intros Hgood. unfold _float_env. destruct (env name) as [v|]; [|by eexists].
  specialize (Hgood v eq_refl). destruct (f v); [by eexists|done].
Qed.

(** X11: which error [load] raises for a malformed float. With a non-empty
    backend list the variables are read in the order refresh interval,
    request timeout, state timeout, health timeout, and the error names the
    first one that [float] rejects, with the text it held. *)
Theorem load_reports_first_bad_float
    (float_of_str : str -> option float) (env : environ)
    (pre post : list (str * (float * (Settings -> float))))
    (name : str) (d : float) (field : Settings -> float) (v : str) :
  parse_backends (default [] (env (lit "MLNODE_BACKENDS"))) <> [] ->
  float_variables = pre ++ (name, (d, field)) :: post ->
  (forall n dn fn vn, (n, (dn, fn)) ∈ pre -> env n = Some vn -> float_of_str vn <> None) ->
  env name = Some v -> float_of_str v = None ->
  load float_of_str env
  = inl (RuntimeError (lit "Invalid float value for " ++ name ++ lit ": " ++ v)).
Proof.
  intros Hne Hsplit Hpre Hv Hbad.
  pose proof (_float_env_malformed float_of_str env name v) as Hmal.
  rewrite load_unfold, bool_decide_eq_false_2 by done.
  unfold float_variables in Hsplit.
  destruct pre as [|x1 [|x2 [|x3 [|x4 pre]]]]; cbn in Hsplit; inversion Hsplit; subst.
  - by rewrite Hmal.
  - destruct (_float_env_good float_of_str env (lit "MLNODE_REFRESH_INTERVAL")
                DEFAULT_REFRESH_INTERVAL) as [x ->];
      [intros vn; eapply Hpre; left|].
    by rewrite Hmal.
  - destruct (_float_env_good float_of_str env (lit "MLNODE_REFRESH_INTERVAL")
                DEFAULT_REFRESH_INTERVAL) as [x ->];
      [intros vn; eapply Hpre; left|].
    destruct (_float_env_good float_of_str env (lit "MLNODE_REQUEST_TIMEOUT")
                DEFAULT_REQUEST_TIMEOUT) as [y ->];
      [intros vn; eapply Hpre; right; left|].
    by rewrite Hmal.
  - destruct (_float_env_good float_of_str env (lit "MLNODE_REFRESH_INTERVAL")
                DEFAULT_REFRESH_INTERVAL) as [x ->];
      [intros vn; eapply Hpre; left|].
    destruct (_float_env_good float_of_str env (lit "MLNODE_REQUEST_TIMEOUT")
                DEFAULT_REQUEST_TIMEOUT) as [y ->];
      [intros vn; eapply Hpre; right; left|].
    destruct (_float_env_good float_of_str env (lit "MLNODE_STATE_TIMEOUT")
                DEFAULT_STATE_TIMEOUT) as [z ->];
      [intros vn; eapply Hpre; right; right; left|].
    by rewrite Hmal.
  - by destruct pre.
Qed.

Lemma load_reports_first_bad_float_witness :
  load reads_only_2_5 bad_timeouts_env
  = inl (RuntimeError (lit "Invalid float value for MLNODE_REQUEST_TIMEOUT: abc")).
Proof.
  apply (load_reports_first_bad_float reads_only_2_5 bad_timeouts_env
           [(lit "MLNODE_REFRESH_INTERVAL", (2.0%float, refresh_interval))]
           [(lit "MLNODE_STATE_TIMEOUT", (5.0%float, state_timeout));
            (lit "MLNODE_HEALTH_TIMEOUT", (2.0%float, health_timeout))]
           (lit "MLNODE_REQUEST_TIMEOUT") 30.0%float request_timeout (lit "abc")).
  - discriminate.
  - reflexivity.
  - intros n dn fn vn Hin. apply list_elem_of_singleton in Hin. inversion Hin; subst.
    intros [= <-]. discriminate.
  - reflexivity.
  - reflexivity.
Defined.

(** ** Headers *)

Section Dicts.

Context {V : Type}.
Implicit Types (d items : list (str * V)) (k : str) (v : V).

Lemma dict_set_keys d k v :
  (dict_set d k v).*1 = if bool_decide (k ∈ d.*1) then d.*1 else d.*1 ++ [k].
Proof.
  induction d as [|[k' v'] d IH]; [done|]. cbn [dict_set].
  destruct (decide (k' = k)) as [->|Hk].
  - rewrite bool_decide_eq_true_2 by done. rewrite !fmap_cons. cbn [fst].
    by rewrite bool_decide_eq_true_2 by left.
  - rewrite bool_decide_eq_false_2 by done. rewrite !fmap_cons, IH. cbn [fst].
    destruct (decide (k ∈ d.*1)) as [Hin|Hin].
    + rewrite !bool_decide_eq_true_2; [done|by right|done].
    + rewrite !bool_decide_eq_false_2; [done| |done].
      rewrite elem_of_cons. by intros [->|?].
Qed.

Lemma dict_set_NoDup d k v : NoDup d.*1 -> NoDup (dict_set d k v).*1.
Proof.
  intros Hd. rewrite dict_set_keys. case_bool_decide as Hin; [done|].
  apply NoDup_app. split; [done|]. split; [|apply NoDup_singleton].
  intros x Hx ->%list_elem_of_singleton. done.
Qed.

Lemma elem_of_dict_set d k v k0 v0 :
  NoDup d.*1 ->
  (k0, v0) ∈ dict_set d k v <-> (k0 = k /\ v0 = v) \/ (k0 <> k /\ (k0, v0) ∈ d).
Proof.
  induction d as [|[k' v'] d IH]; cbn [dict_set].
  - intros _. rewrite list_elem_of_singleton, elem_of_nil.
    split; [intros [= -> ->]; by left|]. intros [[-> ->]|[_ []]]. done.
  - rewrite fmap_cons, NoDup_cons. cbn [fst]. intros [Hk' Hd].
    assert (forall w, (k', w) ∈ d -> False) as Hfresh.
    { intros w Hw. apply Hk'. apply list_elem_of_fmap. by exists (k', w). }
    destruct (decide (k' = k)) as [->|Hk].
    + rewrite bool_decide_eq_true_2 by done. rewrite !elem_of_cons.
      split.
      * intros [Heq|Hin]; [inversion Heq; by left|].
        right. split; [|by right]. intros ->. by eapply Hfresh.
      * intros [[-> ->]|[Hne [Heq|Hin]]]; [by left| |by right].
        inversion Heq. congruence.
    + rewrite bool_decide_eq_false_2 by done. rewrite !elem_of_cons, (IH Hd).
      split.
      * intros [Heq|[[-> ->]|[Hne Hin]]].
        -- inversion Heq; subst. right. split; [done|by left].
        -- by left.
        -- right. split; [done|by right].
      * intros [[-> ->]|[Hne [Heq|Hin]]].
        -- right. by left.
        -- by left.
        -- right. right. done.
Qed.

Lemma last_value_None items k : last_value items k = None <-> k ∉ items.*1.
Proof.
  induction items as [|[k' v'] items IH]; cbn.
  - split; [intros _; apply not_elem_of_nil|done].
  - rewrite not_elem_of_cons, <- IH. destruct (last_value items k).
    + split; [done|]. by intros [_ ?].
    + destruct (decide (k' = k)) as [->|Hk].
      * rewrite bool_decide_eq_true_2 by done. split; [done|]. by intros [? _].
      * rewrite bool_decide_eq_false_2 by done. split; [|done].
        intros _. split; [by intros ->|done].
Qed.

Lemma fold_dict_set items d :
  NoDup d.*1 ->
  NoDup (fold_left (fun d kv => dict_set d kv.1 kv.2) items d).*1
  /\ forall k v,
       (k, v) ∈ fold_left (fun d kv => dict_set d kv.1 kv.2) items d
       <-> last_value items k = Some v \/ (last_value items k = None /\ (k, v) ∈ d).
Proof.
  revert d. induction items as [|[k0 v0] items IH]; intros d Hd; cbn [fold_left].
  - split; [done|]. intros k v. cbn. split; [by right|]. by intros [?|[_ ?]].
  - destruct (IH (dict_set d k0 v0) (dict_set_NoDup _ _ _ Hd)) as [Hnd Hin].
    split; [done|]. intros k v. rewrite Hin. cbn [last_value fst snd].
    rewrite (elem_of_dict_set d k0 v0 k v Hd).
    destruct (last_value items k) as [w|].
    + split; intros [?|[? _]]; (by left) || done.
    + case_bool_decide as Hk; subst.
      * split.
        -- intros [?|[_ [[_ ->]|[? _]]]]; try done. by left.
        -- intros [[= ->]|[? _]]; [|done]. right. split; [done|]. by left.
      * split.
        -- intros [?|[_ [[-> _]|[_ ?]]]]; try done. by right.
        -- intros [?|[_ ?]]; [done|]. right. split; [done|]. right. split; [|done].
           by intros ->.
Qed.

Lemma dict_of_items_spec items :
  NoDup (dict_of_items items).*1
  /\ forall k v, (k, v) ∈ dict_of_items items <-> last_value items k = Some v.
Proof.
  destruct (fold_dict_set items [] (NoDup_nil_2)) as [Hnd Hin].
  split; [done|]. intros k v. unfold dict_of_items. rewrite Hin.
  split; [intros [?|[_ ?%elem_of_nil]]; done|by left].
Qed.

Lemma last_value_filter (keep : str -> bool) items k :
  last_value (List.filter (fun kv => keep kv.1) items) k
  = if keep k then last_value items k else None.
Proof.
  induction items as [|[k' v'] items IH]; cbn; [by destruct (keep k)|].
  destruct (keep k') eqn:Hk'; cbn; rewrite IH.
  - destruct (keep k) eqn:Hk; [done|].
    case_bool_decide; [congruence|done].
  - destruct (keep k) eqn:Hk; [|done].
    destruct (last_value items k); [done|]. case_bool_decide; [congruence|done].
Qed.

End Dicts.

Lemma dict_set_fresh {V} (d : list (str * V)) (k : str) (v : V) :
  k ∉ d.*1 -> dict_set d k v = d ++ [(k, v)].
Proof.
  induction d as [|[k' v'] d IH]; [done|]. rewrite fmap_cons, not_elem_of_cons.
  cbn [fst dict_set]. intros [Hne Hd]. rewrite bool_decide_eq_false_2 by done.
  cbn. by rewrite IH.
Qed.

Lemma dict_of_items_NoDup {V} (items : list (str * V)) :
  NoDup items.*1 -> dict_of_items items = items.
Proof.
  unfold dict_of_items.
  assert (forall d, NoDup (d ++ items).*1 ->
            fold_left (fun d kv => dict_set d kv.1 kv.2) items d = d ++ items) as Hgen.
  { induction items as [|[k v] items IH]; intros d Hnd; cbn [fold_left fst snd].
    - by rewrite app_nil_r.
    - rewrite dict_set_fresh.
      + rewrite IH; rewrite <- app_assoc; done.
      + rewrite fmap_app, fmap_cons in Hnd. apply NoDup_app in Hnd as (_ & Hd & _).
        intros Hk. apply (Hd k Hk). left. }
  intros Hnd. by apply (Hgen []).
Qed.

Lemma filter_keys_NoDup {V} (f : str * V -> bool) (items : list (str * V)) :
  NoDup items.*1 -> NoDup (List.filter f items).*1.
Proof.
  induction items as [|[k v] items IH]; [done|]. rewrite fmap_cons, NoDup_cons.
  cbn [fst List.filter]. intros [Hk Hnd]. destruct (f (k, v)); [|by apply IH].
  rewrite fmap_cons, NoDup_cons. split; [|by apply IH]. cbn [fst]. intros Hin. apply Hk.
  apply list_elem_of_fmap in Hin as ([k' v'] & -> & Hin).
  apply list_elem_of_In, filter_In in Hin as [Hin _].
  apply list_elem_of_fmap. exists (k', v'). split; [done|by apply list_elem_of_In].
Qed.

Lemma dict_join_keys (d : list (str * str)) (k v : str) :
  (dict_join d k v).*1 = if bool_decide (k ∈ d.*1) then d.*1 else d.*1 ++ [k].
Proof.
  induction d as [|[k' v'] d IH]; [done|]. cbn [dict_join].
  destruct (decide (k' = k)) as [->|Hk].
  - rewrite bool_decide_eq_true_2 by done. rewrite !fmap_cons. cbn [fst].
    by rewrite bool_decide_eq_true_2 by left.
  - rewrite bool_decide_eq_false_2 by done. rewrite !fmap_cons, IH. cbn [fst].
    destruct (decide (k ∈ d.*1)) as [Hin|Hin].
    + rewrite !bool_decide_eq_true_2; [done|by right|done].
    + rewrite !bool_decide_eq_false_2; [done| |done].
      rewrite elem_of_cons. by intros [->|?].
Qed.

Lemma dict_join_NoDup (d : list (str * str)) (k v : str) :
  NoDup d.*1 -> NoDup (dict_join d k v).*1.
Proof.
  intros Hd. rewrite dict_join_keys. case_bool_decide as Hin; [done|].
  apply NoDup_app. split; [done|]. split; [|apply NoDup_singleton].
  intros x Hx ->%list_elem_of_singleton. done.
Qed.

Lemma elem_of_dict_join (d : list (str * str)) (k v k0 v0 : str) :
  NoDup d.*1 ->
  (k0, v0) ∈ dict_join d k v
  <-> (k0 = k /\ ((exists u, (k, u) ∈ d /\ v0 = u ++ lit ", " ++ v)
                  \/ ((k ∉ d.*1) /\ v0 = v)))
      \/ (k0 <> k /\ (k0, v0) ∈ d).
Proof.
  induction d as [|[k' v'] d IH]; cbn [dict_join].
  - intros _. rewrite list_elem_of_singleton. split.
    + intros [= -> ->]. left. split; [done|]. right. split; [apply not_elem_of_nil|done].
    + intros [[-> [(u & Hu & _)|[_ ->]]]|[_ Hin]]; [|done|]; by apply elem_of_nil in Hu || by apply elem_of_nil in Hin.
  - rewrite fmap_cons, NoDup_cons. cbn [fst]. intros [Hk' Hd].
    assert (forall w, (k', w) ∈ d -> False) as Hfresh.
    { intros w Hw. apply Hk'. apply list_elem_of_fmap. by exists (k', w). }
    destruct (decide (k' = k)) as [->|Hk].
    + rewrite bool_decide_eq_true_2 by done. rewrite !elem_of_cons. split.
      * intros [Heq|Hin].
        -- inversion Heq; subst. left. split; [done|]. left. exists v'. split; [by left|done].
        -- right. split; [|by right]. intros ->. by eapply Hfresh.
      * intros [[-> [(u & Hu & ->)|[Hnin ->]]]|[Hne Hin]].
        -- apply elem_of_cons in Hu as [Heq|Hu]; [|by destruct (Hfresh u)].
           inversion Heq; subst. by left.
        -- exfalso. apply Hnin. apply elem_of_cons. by left.
        -- destruct Hin as [Heq|Hin]; [inversion Heq; congruence|by right].
    + rewrite bool_decide_eq_false_2 by done. rewrite !elem_of_cons, (IH Hd). split.
      * intros [Heq|[[-> [(u & Hu & ->)|[Hnin ->]]]|[Hne Hin]]].
        -- inversion Heq; subst. right. split; [done|by left].
        -- left. split; [done|]. left. exists u. split; [by right|done].
        -- left. split; [done|]. right. split; [|done].
           intros [->|?]; done.
        -- right. split; [done|by right].
      * intros [[-> [(u & Hu & ->)|[Hnin ->]]]|[Hne Hin]].
        -- apply elem_of_cons in Hu as [Heq|Hu]; [inversion Heq; congruence|].
           right. left. split; [done|]. left. by exists u.
        -- right. left. split; [done|]. right. split; [|done].
           intros ?. apply Hnin. by right.
        -- destruct Hin as [Heq|Hin]; [inversion Heq; subst; by left|].
           right. right. done.
Qed.

Lemma Headers_items_fold (lines d : list (str * str)) (k v : str) :
  NoDup d.*1 ->
  NoDup (fold_left (fun d kv => dict_join d (ascii_lower kv.1) kv.2) lines d).*1
  /\ ((k, v) ∈ fold_left (fun d kv => dict_join d (ascii_lower kv.1) kv.2) lines d
      <-> (exists u, (k, u) ∈ d /\ v = comma_joined u (header_values lines k))
          \/ ((k ∉ d.*1)
              /\ exists v0 vs, header_values lines k = v0 :: vs /\ v = comma_joined v0 vs)).
Proof.
  revert d. induction lines as [|[name x] lines IH]; intros d Hd; cbn [fold_left fst snd].
  - split; [done|]. cbn. split.
    + intros Hin. left. by exists v.
    + intros [(u & Hu & ->)|(_ & v0 & vs & Hnil & _)]; done.
  - destruct (IH (dict_join d (ascii_lower name) x) (dict_join_NoDup _ _ _ Hd))
      as [Hnd Hin].
    split; [done|]. rewrite Hin. clear Hin IH. cbn [header_values].
    assert (forall u, (k, u) ∈ d -> k ∈ d.*1) as Hkeys.
    { intros u Hu. apply list_elem_of_fmap. by exists (k, u). }
    destruct (decide (ascii_lower name = k)) as [Hk|Hk].
    + rewrite bool_decide_eq_true_2 by done. subst k.
      assert (ascii_lower name ∈ (dict_join d (ascii_lower name) x).*1) as Hmem.
      { rewrite dict_join_keys. case_bool_decide; [done|].
        apply elem_of_app. right. left. }
      split.
      * intros [(u & Hu & ->)|[Hnin _]]; [|done].
        apply (elem_of_dict_join d _ x _ u Hd) in Hu
          as [[_ [(u' & Hu' & ->)|[Hnin ->]]]|[Hne _]]; [| |done].
        -- left. by exists u'.
        -- right. split; [done|]. by eexists _, _.
      * intros [(u' & Hu' & ->)|(Hnin & v0 & vs & [= <- <-] & ->)].
        -- left. exists (u' ++ lit ", " ++ x). split; [|done].
           apply elem_of_dict_join; [done|]. left. split; [done|]. left. by exists u'.
        -- left. exists x. split; [|done].
           apply elem_of_dict_join; [done|]. left. split; [done|]. by right.
    + rewrite bool_decide_eq_false_2 by done.
      assert (k ∈ (dict_join d (ascii_lower name) x).*1 <-> k ∈ d.*1) as Hmem.
      { rewrite dict_join_keys. case_bool_decide; [done|].
        rewrite elem_of_app, list_elem_of_singleton. split; [intros [?|?]; done|by left]. }
      assert (forall u, (k, u) ∈ dict_join d (ascii_lower name) x <-> (k, u) ∈ d) as Hsame.
      { intros u. rewrite (elem_of_dict_join d _ x k u Hd). split.
        - intros [[? _]|[_ ?]]; done.
        - intros ?. right. split; [by intros ->|done]. }
      rewrite Hmem. by setoid_rewrite Hsame.
Qed.

Lemma Headers_items_spec (lines : list (str * str)) (k v : str) :
  NoDup (Headers_items lines).*1
  /\ ((k, v) ∈ Headers_items lines
      <-> exists v0 vs, header_values lines k = v0 :: vs /\ v = comma_joined v0 vs).
Proof.
  destruct (Headers_items_fold lines [] k v (NoDup_nil_2)) as [Hnd Hin].
  split; [done|]. unfold Headers_items. rewrite Hin. split.
  - intros [(u & Hu & _)|[_ ?]]; [by apply elem_of_nil in Hu|done].
  - intros ?. right. split; [apply not_elem_of_nil|done].
Qed.

(** X12: the headers that go upstream and the headers that come back. A
    request header is forwarded exactly when its name, in lower case, is not
    "host"; the forwarded headers are a dict, so no name occurs twice and a
    name that was given more than once keeps its last value. The upstream
    headers reach the handler as the HTTP client's items: names in ASCII
    lower case, each once, the values of repeated lines joined by ", ". Of
    these the handler passes on, in the same order, exactly the ones whose
    name is none of "content-length", "transfer-encoding" and "connection". *)
Theorem header_filters (request : Request) (upstream : upstream_response)
    (k v : str) :
  let hop_by_hop := [lit "content-length"; lit "transfer-encoding"; lit "connection"] in
  NoDup (forwarded_headers request).*1
  /\ ((k, v) ∈ forwarded_headers request
      <-> lower k <> lit "host" /\ last_value (headers request) k = Some v)
  /\ filtered_headers upstream
     = List.filter (fun kv => negb (bool_decide (lower kv.1 ∈ hop_by_hop)))
         (Headers_items (up_response_headers upstream))
  /\ NoDup (filtered_headers upstream).*1
  /\ ((k, v) ∈ filtered_headers upstream
      <-> (lower k ∉ hop_by_hop)
          /\ exists v0 vs, header_values (up_response_headers upstream) k = v0 :: vs
                           /\ v = comma_joined v0 vs).
Proof.
  intros hop_by_hop.
  destruct (dict_of_items_spec
              (List.filter (fun kv : str * str => negb (bool_decide (lower kv.1 = lit "host")))
                 (headers request))) as [Hnd1 Hin1].
  destruct (Headers_items_spec (up_response_headers upstream) k v) as [Hnd2 Hin2].
  assert (filtered_headers upstream
          = List.filter (fun kv => negb (bool_decide (lower kv.1 ∈ hop_by_hop)))
              (Headers_items (up_response_headers upstream))) as Hfilt.
  { unfold filtered_headers. apply dict_of_items_NoDup. by apply filter_keys_NoDup. }
  split; [done|]. split; [|split; [done|split]].
  - unfold forwarded_headers. rewrite Hin1.
    pose proof (last_value_filter (fun k => negb (bool_decide (lower k = lit "host")))
                  (headers request) k) as Hf.
    cbn beta in Hf. rewrite Hf. clear Hf.
    case_bool_decide as Hk; cbn [negb]; [split; [done|by intros [? _]]|].
    split; [done|by intros [_ ?]].
  - rewrite Hfilt. by apply filter_keys_NoDup.
  - rewrite Hfilt, list_elem_of_In, filter_In, <- list_elem_of_In, Hin2. cbn [fst].
    rewrite negb_true_iff, bool_decide_eq_false. tauto.
Qed.

Lemma header_filters_witness :
  let request :=
    mkRequest (lit "GET") (lit "/v1/models") []
      [(lit "accept", lit "a"); (lit "host", lit "balancer"); (lit "accept", lit "b")] [] in
  let upstream :=
    mkUpstreamResponse 200
      [(lit "Set-Cookie", lit "a=1"); (lit "Content-Length", lit "2");
       (lit "set-cookie", lit "b=2")] [] in
  (lit "accept", lit "b") ∈ forwarded_headers request
  /\ forwarded_headers request = [(lit "accept", lit "b")]
  /\ filtered_headers upstream = [(lit "set-cookie", lit "a=1, b=2")].
Proof.
  intros request upstream. split; [|split; reflexivity].
  apply (header_filters request upstream).
  split; [discriminate|reflexivity].
Defined.

(** ** A proxied request that gets through *)





(** ** The fallback route *)



(** ** Equal load is served in configuration order *)

Lemma started_lookup (j i : nat) (bs : list Backend) (b : Backend) :
  started j bs !! i = Some b ->
  exists b0, bs !! i = Some b0
             /\ b = (if decide (i < j)%nat then mark_request_start b0 else b0).
Proof.
  unfold started. intros Hl. destruct (decide (i < j)%nat) as [Hij|Hij].
  - destruct (decide (i < length bs)%nat) as [Hlen|Hlen].
    + rewrite lookup_app_l in Hl by (rewrite length_fmap, length_take; lia).
      rewrite list_lookup_fmap, lookup_take_lt in Hl by done.
      destruct (bs !! i) as [b0|]; [|done]. exists b0. by inversion Hl.
    + apply lookup_lt_Some in Hl.
      rewrite length_app, length_fmap, length_take, length_drop in Hl. lia.
  - assert (length (mark_request_start <$> take j bs) = Nat.min j (length bs)) as Hlen
      by by rewrite length_fmap, length_take.
    destruct (decide (j <= length bs)%nat) as [Hj|Hj].
    + rewrite lookup_app_r in Hl by lia. rewrite Hlen, lookup_drop in Hl.
      replace (j + (i - Nat.min j (length bs)))%nat with i in Hl by lia. by exists b.
    + rewrite drop_ge, app_nil_r in Hl by lia. apply lookup_lt_Some in Hl. lia.
Qed.

Lemma started_step (j : nat) (bs : list Backend) :
  (j < length bs)%nat -> alter mark_request_start j (started j bs) = started (S j) bs.
Proof.
  intros Hj. unfold started.
  destruct (lookup_lt_is_Some_2 bs j Hj) as [b Hb].
  assert (length (mark_request_start <$> take j bs) = j) as Hlen
    by (rewrite length_fmap, length_take; lia).
  rewrite <- (Nat.add_0_r j) at 1. rewrite <- Hlen at 1. rewrite alter_app_r.
  rewrite (drop_S _ _ _ Hb). cbn. rewrite (take_S_r _ _ _ Hb), fmap_app. cbn.
  by rewrite <- app_assoc.
Qed.

Lemma pick_backend_started (s : Settings) (bs : list Backend) (k : Z) (j : nat) :
  Forall (fun b => is_available b = true /\ active_requests b = k) bs ->
  (j < length bs)%nat ->
  pick_backend (mkBackendPool s (started j bs))
  = inr (j, mkBackendPool s (started (S j) bs)).
Proof.
  intros Hall Hj. rewrite Forall_lookup in Hall.
  destruct (lookup_lt_is_Some_2 bs j Hj) as [bj Hbj].
  destruct (Hall j bj Hbj) as [Haj Hkj].
  assert (started j bs !! j = Some bj) as Hsj.
  { unfold started. rewrite lookup_app_r by (rewrite length_fmap, length_take; lia).
    rewrite length_fmap, length_take, lookup_drop.
    by replace (j + (j - Nat.min j (length bs)))%nat with j by lia. }
  destruct (pick_backend (mkBackendPool s (started j bs))) as [e|[i p']] eqn:Hpick.
  { apply pick_backend_raised in Hpick as [_ Hna]. cbn in Hna.
    rewrite Forall_lookup in Hna. specialize (Hna j bj Hsj). congruence. }
  destruct (pick_backend_chosen _ _ _ Hpick) as (c & Hc & Hca & Hmin & ->).
  cbn [backends] in Hc, Hmin.
  destruct (Hmin j bj Hsj Haj) as [Hle Hlt].
  destruct (started_lookup _ _ _ _ Hc) as (c0 & Hc0 & Hceq).
  destruct (Hall i c0 Hc0) as [_ Hk0].
  assert (i = j) as ->.
  { destruct (decide (i < j)%nat) as [Hij|Hij].
    - subst c. cbn in Hle. lia.
    - destruct (decide (j < i)%nat) as [Hji|Hji]; [|lia].
      specialize (Hlt Hji). subst c. lia. }
  unfold on_backend. cbn [pool_settings backends]. by rewrite started_step.
Qed.

(** X15: backends under equal load are served in turn. When every backend
    is available and all carry the same load, the first [pick_backend]
    returns the first backend, the next one the second, and so on in
    configuration order; after as many picks as there are backends each
    has been picked exactly once. *)
Theorem equal_load_is_served_in_order (p : BackendPool) (k : Z) :
  Forall (fun b => is_available b = true /\ active_requests b = k) (backends p) ->
  (forall j, (j < length (backends p))%nat ->
     pick_backend (mkBackendPool (pool_settings p) (started j (backends p)))
     = inr (j, mkBackendPool (pool_settings p) (started (S j) (backends p))))
  /\ pick_times (length (backends p)) p
     = inr (mkBackendPool (pool_settings p) (mark_request_start <$> backends p)).
Proof.
  intros Hall. split; [intros j Hj; by eapply pick_backend_started|].
  destruct p as [s bs]. cbn [backends pool_settings] in *.
  assert (forall n j, (j + n = length bs)%nat ->
            pick_times n (mkBackendPool s (started j bs))
            = inr (mkBackendPool s (mark_request_start <$> bs))) as Hgen.
  { induction n as [|n IH]; intros j Hjn; cbn [pick_times].
    - unfold started. rewrite take_ge, drop_ge, app_nil_r by lia. done.
    - rewrite (pick_backend_started s bs k j Hall) by lia. apply IH. lia. }
  specialize (Hgen (length bs) 0%nat eq_refl). by rewrite <- Hgen.
Qed.

Lemma equal_load_is_served_in_order_witness :
  let p := mkBackendPool sample_settings
             [serving "http://b1" 4; serving "http://b2" 4; serving "http://b3" 4] in
  pick_times 3 p
  = inr (mkBackendPool sample_settings
           [serving "http://b1" 5; serving "http://b2" 5; serving "http://b3" 5]).
Proof.
  intros p.
  destruct (equal_load_is_served_in_order p 4) as [_ H]; [by repeat constructor|].
  exact H.
Defined.

(** ** Start-up *)




(** ** The monitor and selection *)

(** X17: what a turn of a backend's monitor means for selection. The turn
    leaves every counter and every other backend as they were. If after it
    the backend is not available (the health poll did not answer 200, or
    the state poll did not report "INFERENCE"), [pick_backend] does not
    return that backend; if it is available, [pick_backend] succeeds. *)
Theorem monitor_turn_gates_selection
    (client : http_client) (i : nat) (p p' : BackendPool) (backend : Backend) :
  backends p !! i = Some backend ->
  monitor_turn client i p = inr p' ->
  exists backend',
    monitor_iteration client backend = inr backend'
    /\ backends p' = <[i := backend']> (backends p)
    /\ active_requests <$> backends p' = active_requests <$> backends p
    /\ (is_available backend' = false ->
        forall k q, pick_backend p' = inr (k, q) -> k <> i)
    /\ (is_available backend' = true -> exists k q, pick_backend p' = inr (k, q)).
Proof.
  intros Hl. unfold monitor_turn. rewrite Hl. unfold mbind, result_bind.
  destruct (monitor_iteration client backend) as [e|backend'] eqn:Hturn; [done|].
  intros [= <-]. exists backend'. cbn [backends].
  assert (<[i:=backend']> (backends p) !! i = Some backend') as Hi.
  { apply list_lookup_insert_eq. by eapply lookup_lt_Some. }
  split; [done|]. split; [done|]. split; [|split].
  - rewrite list_fmap_insert. apply list_insert_id. rewrite list_lookup_fmap, Hl. cbn.
    f_equal. rewrite monitor_iteration_unfold in Hturn.
    destruct (_fetch_json _ _ _) as [e|state_data]; [done|].
    destruct (state_of state_data); [done|]. by inversion Hturn.
  - intros Hna k q Hpick ->.
    destruct (pick_backend_chosen _ _ _ Hpick) as (c & Hc & Hca & _).
    cbn [backends] in Hc. rewrite Hi in Hc. inversion Hc; subst. congruence.
  - intros Ha. apply any_healthy_picks, any_healthy_iff. exists backend'.
    split; [by eapply list_elem_of_lookup_2|]. by apply is_available_iff.
Qed.

Lemma monitor_turn_gates_selection_witness :
  let p := mkBackendPool sample_settings [serving "http://b1" 0; serving "http://b2" 3] in
  exists p',
    monitor_turn unhealthy_http_client 0 p = inr p'
    /\ (exists q, pick_backend p' = inr (1%nat, q))
    /\ forall k q, pick_backend p' = inr (k, q) -> k <> 0%nat.
Proof.
  intros p. eexists. split; [reflexivity|]. split; [by eexists|].
  destruct (monitor_turn_gates_selection unhealthy_http_client 0 p _
              (serving "http://b1" 0) eq_refl eq_refl) as (b' & Hb' & _ & _ & Hgate & _).
  apply Hgate. cbv in Hb'. inversion Hb'. reflexivity.
Defined.
